(** * Pomodoro timer and orange physics: a shallow embedding of [src/app/page.tsx]

    Two parts of the page component are modelled.

    - [Timer]: the React state of [PomodoroApp] that drives the countdown
      ([workTime], [breakTime], [currentTime], [mode], [endTime],
      [vibrationEnabled], the [prevModeRef] ref), the handlers
      [startWork], [startBreak], the [setInterval] callback of the
      countdown effect, and the two effects that react to a change of
      [mode].  Wall-clock timestamps ([Date.now()]) are integers of
      milliseconds, so they are values of [Z]; [Math.floor (a / 1000)] on
      such integers is [Z.div].

    - [Physics]: the [OrangePhysics] component: the choice of the
      acceleration vector, the population effect, and the three passes of
      the animation-frame callback [update], with JavaScript numbers
      idealised as real numbers ([R]).  It carries the statements that do
      not depend on the arithmetic: which oranges a pass touches, which
      branch is taken, what the population and the acceleration source
      do.

    - [Physics64]: the same frame callback on binary64 values with the
      IEEE 754 operations, the arithmetic the source runs in.  It carries
      the statements about the numbers a frame produces. *)

From Stdlib Require Import ZArith List Bool Lia Reals Lra.
From Stdlib Require String Ascii DecimalString Floats Uint63.
Import ListNotations.

Module Timer.

Local Open Scope Z_scope.

(** ** State *)

(** [useState<"idle" | "work" | "finishedWork" | "break">("idle")] *)
Inductive Mode : Type := idle | work | finishedWork | break.

Definition Mode_eqb (a b : Mode) : bool :=
  match a, b with
  | idle, idle | work, work | finishedWork, finishedWork | break, break => true
  | _, _ => false
  end.

(** The hooks of [PomodoroApp] the timer reads or writes, followed by three
    counters that log the calls made to the outside world:
    [launchConfetti()], [navigator.vibrate([...])] and [recordPomodoro()]. *)
Record State : Type := mkState {
  workTime : Z;              (* minutes *)
  breakTime : Z;             (* minutes *)
  currentTime : Z;           (* seconds shown by formatTime *)
  mode : Mode;
  endTime : option Z;        (* absolute end timestamp in ms, or null *)
  vibrationEnabled : bool;
  prevModeRef : Mode;
  confetti : nat;
  vibrations : nat;
  recorded : nat
}.

Definition setWorkTime (w : Z) (s : State) : State :=
  mkState w (breakTime s) (currentTime s) (mode s) (endTime s)
          (vibrationEnabled s) (prevModeRef s) (confetti s) (vibrations s) (recorded s).

Definition setBreakTime (b : Z) (s : State) : State :=
  mkState (workTime s) b (currentTime s) (mode s) (endTime s)
          (vibrationEnabled s) (prevModeRef s) (confetti s) (vibrations s) (recorded s).

Definition setCurrentTime (t : Z) (s : State) : State :=
  mkState (workTime s) (breakTime s) t (mode s) (endTime s)
          (vibrationEnabled s) (prevModeRef s) (confetti s) (vibrations s) (recorded s).

Definition setMode (m : Mode) (s : State) : State :=
  mkState (workTime s) (breakTime s) (currentTime s) m (endTime s)
          (vibrationEnabled s) (prevModeRef s) (confetti s) (vibrations s) (recorded s).

Definition setEndTime (e : option Z) (s : State) : State :=
  mkState (workTime s) (breakTime s) (currentTime s) (mode s) e
          (vibrationEnabled s) (prevModeRef s) (confetti s) (vibrations s) (recorded s).

Definition setVibrationEnabled (v : bool) (s : State) : State :=
  mkState (workTime s) (breakTime s) (currentTime s) (mode s) (endTime s)
          v (prevModeRef s) (confetti s) (vibrations s) (recorded s).

Definition setPrevModeRef (m : Mode) (s : State) : State :=
  mkState (workTime s) (breakTime s) (currentTime s) (mode s) (endTime s)
          (vibrationEnabled s) m (confetti s) (vibrations s) (recorded s).

Definition launchConfetti (s : State) : State :=
  mkState (workTime s) (breakTime s) (currentTime s) (mode s) (endTime s)
          (vibrationEnabled s) (prevModeRef s) (S (confetti s)) (vibrations s) (recorded s).

Definition vibrate (s : State) : State :=
  mkState (workTime s) (breakTime s) (currentTime s) (mode s) (endTime s)
          (vibrationEnabled s) (prevModeRef s) (confetti s) (S (vibrations s)) (recorded s).

Definition recordPomodoro (s : State) : State :=
  mkState (workTime s) (breakTime s) (currentTime s) (mode s) (endTime s)
          (vibrationEnabled s) (prevModeRef s) (confetti s) (vibrations s) (S (recorded s)).

(** The state at mount: [workTime = 30], [breakTime = 5],
    [currentTime = workTime * 60], [mode = "idle"], [endTime = null]. *)
Definition init : State :=
  mkState 30 5 (30 * 60) idle None false idle 0 0 0.

(** ** Handlers *)

(** [const startWork = () => { if (mode === "idle") { ... } }] *)
Definition startWork (now : Z) (s : State) : State :=
  match mode s with
  | idle =>
      let newEnd := now + workTime s * 60 * 1000 in
      setMode work (setEndTime (Some newEnd) s)
  | _ => s
  end.

(** [const startBreak = () => { if (mode === "finishedWork") { ... } }] *)
Definition startBreak (now : Z) (s : State) : State :=
  match mode s with
  | finishedWork =>
      let newEnd := now + breakTime s * 60 * 1000 in
      setMode break (setEndTime (Some newEnd) s)
  | _ => s
  end.

(** [Math.max(0, Math.floor((endTime - Date.now()) / 1000))] *)
Definition secondsLeft (endT now : Z) : Z :=
  Z.max 0 ((endT - now) / 1000).

(** The callback given to [setInterval] by the countdown effect.  The
    interval exists only when [(mode === "work" || mode === "break") &&
    endTime !== null]; with no interval armed a tick does nothing. *)
Definition tick (now : Z) (s : State) : State :=
  match mode s, endTime s with
  | work, Some e =>
      let sl := secondsLeft e now in
      let s1 := setCurrentTime sl s in
      if sl =? 0 then setMode finishedWork s1 else s1
  | break, Some e =>
      let sl := secondsLeft e now in
      let s1 := setCurrentTime sl s in
      if sl =? 0 then setMode idle s1 else s1
  | _, _ => s
  end.

(** [requestVibrationPermission], on a device where [navigator.vibrate]
    exists. *)
Definition requestVibrationPermission (s : State) : State :=
  setVibrationEnabled true s.

(** [handleSaveSettings], resumed after [await updateUserSettings()].  The
    handler is a closure of the render in which Save was clicked:
    [clickedMode] and [clickedWorkTime] are the [mode] and [workTime] of
    that render, whatever the state is when the handler resumes. *)
Definition handleSaveSettings (clickedMode : Mode) (clickedWorkTime : Z)
    (s : State) : State :=
  match clickedMode with
  | idle => setCurrentTime (clickedWorkTime * 60) s
  | _ => s
  end.

(** [initUserSettings], when a settings row exists. *)
Definition settingsLoaded (focus_time interval_time : Z) (s : State) : State :=
  setCurrentTime (focus_time * 60)
    (setBreakTime interval_time (setWorkTime focus_time s)).

(** ** Effects *)

(** The effect with dependencies [[mode, recordPomodoro, vibrationEnabled]]. *)
Definition modeEffect (s : State) : State :=
  let s1 :=
    match mode s with
    | finishedWork =>
        let s' := launchConfetti s in
        if vibrationEnabled s' then vibrate s' else s'
    | _ => s
    end in
  let s2 :=
    if Mode_eqb (prevModeRef s1) break && Mode_eqb (mode s1) idle
    then launchConfetti (recordPomodoro s1)
    else s1 in
  setPrevModeRef (mode s2) s2.

(** The effect with dependencies [[workTime, mode]]. *)
Definition resetEffect (s : State) : State :=
  match mode s with
  | idle => setCurrentTime (workTime s * 60) s
  | _ => s
  end.

(** ** Events and runs *)

(** What can happen to the mounted component: a click on Start, a click on
    Start Pause, the interval firing, a duration button, the Save handler
    resuming, the settings row arriving, a click on Enable Vibration, and
    [recordPomodoro] getting a new identity because [session] or
    [pomodoroCount] changed. *)
Inductive Event : Type :=
  | StartWork (now : Z)
  | StartBreak (now : Z)
  | Tick (now : Z)
  | SetWorkTime (w : Z)
  | SetBreakTime (b : Z)
  | SaveSettings (clickedMode : Mode) (clickedWorkTime : Z)
  | SettingsLoaded (focus_time interval_time : Z)
  | EnableVibration
  | RecordPomodoroRenewed.

Definition handle (ev : Event) (s : State) : State :=
  match ev with
  | StartWork now => startWork now s
  | StartBreak now => startBreak now s
  | Tick now => tick now s
  | SetWorkTime w => setWorkTime w s
  | SetBreakTime b => setBreakTime b s
  | SaveSettings clickedMode clickedWorkTime =>
      handleSaveSettings clickedMode clickedWorkTime s
  | SettingsLoaded f i => settingsLoaded f i s
  | EnableVibration => requestVibrationPermission s
  | RecordPomodoroRenewed => s
  end.

Definition modeEffectDue (ev : Event) (old new : State) : bool :=
  negb (Mode_eqb (mode old) (mode new))
  || negb (Bool.eqb (vibrationEnabled old) (vibrationEnabled new))
  || match ev with RecordPomodoroRenewed => true | _ => false end.

Definition resetEffectDue (old new : State) : bool :=
  negb (workTime old =? workTime new) || negb (Mode_eqb (mode old) (mode new)).

(** One event: the handler, then the effects whose dependencies changed, in
    the order of the source. *)
Definition step (ev : Event) (s : State) : State :=
  let s' := handle ev s in
  let s1 := if modeEffectDue ev s s' then modeEffect s' else s' in
  if resetEffectDue s s' then resetEffect s1 else s1.

Definition run (evs : list Event) (s : State) : State :=
  fold_left (fun st ev => step ev st) evs s.

Inductive reachable : State -> Prop :=
  | reach_init : reachable init
  | reach_step : forall ev s, reachable s -> reachable (step ev s).

(** Number of steps of a run that take [mode] from [a] to [b]. *)
Fixpoint crossings (a b : Mode) (evs : list Event) (s : State) : nat :=
  match evs with
  | [] => 0
  | ev :: evs' =>
      let s' := step ev s in
      ((if Mode_eqb (mode s) a && Mode_eqb (mode s') b then 1 else 0)
       + crossings a b evs' s')%nat
  end.

(** A Save that resumes with the [workTime] it was clicked with: no
    duration button was pressed and no settings row arrived during the
    [await]. *)
Definition freshSave (ev : Event) (s : State) : Prop :=
  match ev with
  | SaveSettings _ clickedWorkTime => clickedWorkTime = workTime s
  | _ => True
  end.

(** A run all of whose Saves are fresh. *)
Fixpoint freshRun (evs : list Event) (s : State) : Prop :=
  match evs with
  | [] => True
  | ev :: evs' => freshSave ev s /\ freshRun evs' (step ev s)
  end.

(** Events that leave both [vibrationEnabled] and the identity of
    [recordPomodoro] alone, so that the mode effect runs after them only if
    [mode] changed. *)
Definition keepsEffectDeps (ev : Event) : bool :=
  match ev with
  | EnableVibration | RecordPomodoroRenewed => false
  | _ => true
  end.

(** The formula of the specification, [max(0, round((deadline - now)/1000))],
    with [round] to the nearest integer as [Math.round] does it
    ([floor (x + 1/2)]). *)
Definition roundedSecondsLeft (deadline now : Z) : Z :=
  Z.max 0 ((deadline - now + 500) / 1000).

End Timer.

Module Display.

Import String Ascii.
Local Open Scope Z_scope.

(** [n.toString()] for an integer [n]: decimal digits, with a leading
    minus sign below zero. *)
Definition toString (n : Z) : string :=
  DecimalString.NilZero.string_of_int (Z.to_int n).

(** [str.padStart(targetLength, c)] for a one-character pad string. *)
Definition padStart (targetLength : nat) (c : ascii) (str : string) : string :=
  String.append
    (string_of_list_ascii (repeat c (targetLength - String.length str)))
    str.

(** [formatTime]: [Math.floor(seconds / 60)] is the floor division of [Z],
    [seconds % 60] the remainder with the sign of [seconds]. *)
Definition formatTime (seconds : Z) : string :=
  let m := seconds / 60 in
  let s := Z.rem seconds 60 in
  String.append (padStart 2 "0"%char (toString m))
    (String.append ":"%string (padStart 2 "0"%char (toString s))).

End Display.

Module Physics.

Local Open Scope R_scope.

(** ** Data *)

(** [{ id: number; x: number; y: number; vx: number; vy: number }] *)
Record Orange : Type := mkOrange {
  id : Z;
  x : R;
  y : R;
  vx : R;
  vy : R
}.

(** [{ ax, ay }], the value of [accelRef.current] and of [accel]. *)
Record Accel : Type := mkAccel { ax : R; ay : R }.

(** The fields of [getBoundingClientRect()] that [update] reads. *)
Record Rect : Type := mkRect { left : R; top : R; right : R; bottom : R }.

(** [const orangeSize = 70] *)
Definition orangeSize : R := 70.

(** ** Acceleration source *)

(** What the browser offers: whether [window.DeviceOrientationEvent] is
    defined, and whether it has a [requestPermission] function. *)
Record Device : Type := mkDevice {
  hasDeviceOrientationEvent : bool;
  hasRequestPermission : bool
}.

(** [accelRef], the two permission flags, and whether
    [handleDeviceOrientation] is registered on [window]. *)
Record Motion : Type := mkMotion {
  accelRef : Accel;
  motionPermissionGranted : bool;
  needsMotionPermission : bool;
  listening : bool
}.

(** [useRef({ ax: 0, ay: 0 })], [useState(false)], [useState(false)]. *)
Definition motionInit : Motion :=
  mkMotion (mkAccel 0 0) false false false.

(** The mount effect: ask for consent where [requestPermission] exists,
    otherwise subscribe at once. *)
Definition motionMount (d : Device) (m : Motion) : Motion :=
  if hasDeviceOrientationEvent d && hasRequestPermission d
  then mkMotion (accelRef m) (motionPermissionGranted m) true (listening m)
  else mkMotion (accelRef m) (motionPermissionGranted m) (needsMotionPermission m) true.

(** [event.gamma || 0]: a missing angle ([null]) counts as 0. *)
Definition orZero (a : option R) : R :=
  match a with Some v => v | None => 0 end.

(** [handleDeviceOrientation], with [sensitivity = 3]. *)
Definition handleDeviceOrientation (gamma beta : option R) (m : Motion) : Motion :=
  let sensitivity := 3 in
  mkMotion (mkAccel (orZero gamma * sensitivity) (orZero beta * sensitivity))
           (motionPermissionGranted m) (needsMotionPermission m) (listening m).

(** A sample reaches the handler only while it is subscribed. *)
Definition deliverSample (gamma beta : option R) (m : Motion) : Motion :=
  if listening m then handleDeviceOrientation gamma beta m else m.

(** [requestMotionPermission], by the answer of the prompt. *)
Definition requestMotionPermission (granted : bool) (m : Motion) : Motion :=
  if granted then mkMotion (accelRef m) true false true else m.

(** [const defaultAccel = { ax: 0, ay: 500 }] *)
Definition defaultAccel : Accel := mkAccel 0 500.

(** [const velocityBoost = 1.5] *)
Definition velocityBoost : R := 1.5.

(** The vector [accel] that [update] integrates with. *)
Definition selectAccel (d : Device) (m : Motion) : Accel :=
  if (needsMotionPermission m && negb (motionPermissionGranted m))
     || negb (hasDeviceOrientationEvent d)
  then defaultAccel
  else mkAccel (ax (accelRef m) * velocityBoost) (ay (accelRef m) * velocityBoost).

(** What reaches the motion state after mount: an orientation sample from
    the browser, or a click on Enable Motion answered by the prompt.  The
    button is rendered only while [needsMotionPermission] holds. *)
Inductive MotionEvent : Type :=
  | Sample (gamma beta : option R)
  | PermissionAnswer (granted : bool).

Definition motionStep (ev : MotionEvent) (m : Motion) : Motion :=
  match ev with
  | Sample gamma beta => deliverSample gamma beta m
  | PermissionAnswer granted =>
      if needsMotionPermission m then requestMotionPermission granted m else m
  end.

Definition motionRun (evs : list MotionEvent) (m : Motion) : Motion :=
  fold_left (fun st ev => motionStep ev st) evs m.

(** Before consent: the flag is up, nothing is granted, the handler is not
    registered and the ref still has its initial value. *)
Definition waiting (m : Motion) : Prop :=
  needsMotionPermission m = true /\ motionPermissionGranted m = false
  /\ listening m = false /\ accelRef m = mkAccel 0 0.

(** Subscribed and past the consent gate, if there was one. *)
Definition live (m : Motion) : Prop :=
  listening m = true /\ needsMotionPermission m = false.

(** ** Population *)

(** The [i]-th orange pushed by the population effect: [Date.now() + i] as
    id, and two draws of [Math.random()], [rx] and [ry]. *)
Definition newOrange (now : Z) (containerWidth containerHeight : R)
    (rx ry : R) (i : nat) : Orange :=
  mkOrange (now + Z.of_nat i)
           (rx * (containerWidth - orangeSize))
           (ry * (containerHeight - orangeSize))
           0 0.

(** The [for] loop filling [newOranges]; [now i] is the value of
    [Date.now()] read in iteration [i], and [random k] is the [k]-th value
    returned by [Math.random()] during this run of the effect. *)
Definition newOranges (now : nat -> Z) (containerWidth containerHeight : R)
    (random : nat -> R) (numToAdd : nat) : list Orange :=
  map (fun i => newOrange (now i) containerWidth containerHeight
                  (random (2 * i)%nat) (random (2 * i + 1)%nat) i)
      (seq 0 numToAdd).

(** The population effect, run against the list [oranges]. *)
Definition adjustPopulation (count : nat) (now : nat -> Z)
    (containerWidth containerHeight : R) (random : nat -> R)
    (oranges : list Orange) : list Orange :=
  if (length oranges <? count)%nat then
    let numToAdd := (count - length oranges)%nat in
    oranges ++ newOranges now containerWidth containerHeight random numToAdd
  else if (count <? length oranges)%nat then
    firstn count oranges
  else oranges.

(** ** The frame callback *)

(** Pass 1, the body of [prevOranges.map]: integration, walls, damping. *)
Definition moveOrange (accel : Accel) (dt containerWidth containerHeight size : R)
    (orange : Orange) : Orange :=
  let vx1 := vx orange + ax accel * dt in
  let vy1 := vy orange + ay accel * dt in
  let x1 := x orange + vx1 * dt in
  let y1 := y orange + vy1 * dt in
  let '(x2, vx2) :=
    if Rlt_dec x1 0 then (0, - vx1 * 0.8)
    else if Rgt_dec (x1 + size) containerWidth then (containerWidth - size, - vx1 * 0.8)
    else (x1, vx1) in
  let '(y2, vy2) :=
    if Rlt_dec y1 0 then (0, - vy1 * 0.8)
    else if Rgt_dec (y1 + size) containerHeight then (containerHeight - size, - vy1 * 0.8)
    else (y1, vy1) in
  mkOrange (id orange) x2 y2 (vx2 * 0.99) (vy2 * 0.99).

(** [orange.x + size / 2], [orange.y + size / 2] *)
Definition centerX (size : R) (orange : Orange) : R := x orange + size / 2.
Definition centerY (size : R) (orange : Orange) : R := y orange + size / 2.

(** [const effectiveRadius = size / 4] *)
Definition effectiveRadius (size : R) : R := size / 4.

(** [const minDistance = effectiveRadius * 2] *)
Definition minDistance (size : R) : R := effectiveRadius size * 2.

(** [dx], [dy] and [distance] of the inner loop. *)
Definition pairDx (size : R) (orangeA orangeB : Orange) : R :=
  centerX size orangeB - centerX size orangeA.
Definition pairDy (size : R) (orangeA orangeB : Orange) : R :=
  centerY size orangeB - centerY size orangeA.
Definition pairDistance (size : R) (orangeA orangeB : Orange) : R :=
  sqrt (pairDx size orangeA orangeB * pairDx size orangeA orangeB
        + pairDy size orangeA orangeB * pairDy size orangeA orangeB).

(** Pass 2, the body of the inner loop for one pair [(orangeA, orangeB)]. *)
Definition collide (size : R) (orangeA orangeB : Orange) : Orange * Orange :=
  let dx := pairDx size orangeA orangeB in
  let dy := pairDy size orangeA orangeB in
  let distance := pairDistance size orangeA orangeB in
  if Rlt_dec distance (minDistance size) then
    if Rgt_dec distance 0 then
      let overlap := (minDistance size - distance) / 2 in
      let nx := dx / distance in
      let ny := dy / distance in
      let xA := x orangeA - overlap * nx in
      let yA := y orangeA - overlap * ny in
      let xB := x orangeB + overlap * nx in
      let yB := y orangeB + overlap * ny in
      let dvx := vx orangeA - vx orangeB in
      let dvy := vy orangeA - vy orangeB in
      let impulse := dvx * nx + dvy * ny in
      if Rlt_dec impulse 0 then
        let restitution := 0.8 in
        let impulseScalar := - impulse * restitution in
        (mkOrange (id orangeA) xA yA
                  (vx orangeA + impulseScalar * nx) (vy orangeA + impulseScalar * ny),
         mkOrange (id orangeB) xB yB
                  (vx orangeB - impulseScalar * nx) (vy orangeB - impulseScalar * ny))
      else
        (mkOrange (id orangeA) xA yA (vx orangeA) (vy orangeA),
         mkOrange (id orangeB) xB yB (vx orangeB) (vy orangeB))
    else (orangeA, orangeB)
  else (orangeA, orangeB).

(** [arr[i] = v] for an index inside the array. *)
Fixpoint setAt (i : nat) (v : Orange) (arr : list Orange) : list Orange :=
  match arr, i with
  | [], _ => []
  | _ :: tl, O => v :: tl
  | hd :: tl, S i' => hd :: setAt i' v tl
  end.

(** One iteration of the inner loop: read the objects at [i] and [j],
    collide them, and store the mutated objects back. *)
Definition collideAt (size : R) (i j : nat) (arr : list Orange) : list Orange :=
  match nth_error arr i, nth_error arr j with
  | Some orangeA, Some orangeB =>
      let '(a', b') := collide size orangeA orangeB in
      setAt j b' (setAt i a' arr)
  | _, _ => arr
  end.

(** [for (i = 0; i < n; i++) for (j = i + 1; j < n; j++) ...] *)
Definition collisionPass (size : R) (arr : list Orange) : list Orange :=
  let n := length arr in
  fold_left
    (fun acc i =>
       fold_left (fun acc' j => collideAt size i j acc')
                 (seq (S i) (n - S i)) acc)
    (seq 0 n) arr.

(** [nearestX], [nearestY]: the point of the rectangle nearest to the
    centre of the orange. *)
Definition nearestX (size : R) (buttonRect : Rect) (orange : Orange) : R :=
  Rmax (left buttonRect) (Rmin (centerX size orange) (right buttonRect)).
Definition nearestY (size : R) (buttonRect : Rect) (orange : Orange) : R :=
  Rmax (top buttonRect) (Rmin (centerY size orange) (bottom buttonRect)).

(** [distX], [distY] and [dist]. *)
Definition distX (size : R) (buttonRect : Rect) (orange : Orange) : R :=
  centerX size orange - nearestX size buttonRect orange.
Definition distY (size : R) (buttonRect : Rect) (orange : Orange) : R :=
  centerY size orange - nearestY size buttonRect orange.
Definition buttonDist (size : R) (buttonRect : Rect) (orange : Orange) : R :=
  sqrt (distX size buttonRect orange * distX size buttonRect orange
        + distY size buttonRect orange * distY size buttonRect orange).

(** [(nx, ny)]: straight up when [dist === 0], else the unit vector from
    the nearest point to the centre. *)
Definition buttonNormal (size : R) (buttonRect : Rect) (orange : Orange) : R * R :=
  let dist := buttonDist size buttonRect orange in
  if Req_dec_T dist 0 then (0, -1)
  else (distX size buttonRect orange / dist, distY size buttonRect orange / dist).

(** Pass 3, the body of the loop over the oranges for a Start button at
    [buttonRect]. *)
Definition hitButton (size : R) (buttonRect : Rect) (orange : Orange) : Orange :=
  let dist := buttonDist size buttonRect orange in
  if Rlt_dec dist (effectiveRadius size) then
    let '(nx, ny) := buttonNormal size buttonRect orange in
    let dot := vx orange * nx + vy orange * ny in
    let penetration := effectiveRadius size - dist in
    mkOrange (id orange)
             (x orange + nx * penetration) (y orange + ny * penetration)
             (vx orange - 2 * dot * nx) (vy orange - 2 * dot * ny)
  else orange.

(** Pass 1 over the whole array. *)
Definition movePass (accel : Accel) (dt containerWidth containerHeight size : R)
    (prevOranges : list Orange) : list Orange :=
  map (moveOrange accel dt containerWidth containerHeight size) prevOranges.

(** The function given to [setOranges] by [update]: the three passes in
    order.  [button] is [startButtonRef.current], absent when the Start
    button is not rendered. *)
Definition update (accel : Accel) (dt containerWidth containerHeight : R)
    (button : option Rect) (prevOranges : list Orange) : list Orange :=
  let size := orangeSize in
  let moved := movePass accel dt containerWidth containerHeight size prevOranges in
  let bounced := collisionPass size moved in
  match button with
  | Some buttonRect => map (hitButton size buttonRect) bounced
  | None => bounced
  end.

(** Position inside the container: [0 <= x <= width - size] and the same
    for [y]. *)
Definition contained (containerWidth containerHeight size : R) (o : Orange) : Prop :=
  0 <= x o <= containerWidth - size /\ 0 <= y o <= containerHeight - size.

End Physics.

(** The frame callback in the arithmetic the source runs in: every
    [number] of [update] is a binary64 value, and [+], [-], [*], [/],
    [Math.sqrt] and the comparisons are the IEEE 754 operations.  The
    definitions repeat those of [Physics] operation for operation, in the
    order in which the source applies them. *)
Module Physics64.

Import Floats.
#[local] Set Warnings "-inexact-float".
Local Open Scope float_scope.

Record Orange : Type := mkOrange {
  id : Z;
  x : float;
  y : float;
  vx : float;
  vy : float
}.

Record Accel : Type := mkAccel { ax : float; ay : float }.

Record Rect : Type := mkRect { left : float; top : float; right : float; bottom : float }.

(** [const orangeSize = 70] *)
Definition orangeSize : float := 70.

(** [const defaultAccel = { ax: 0, ay: 500 }] *)
Definition defaultAccel : Accel := mkAccel 0 500.

(** [Math.max] and [Math.min] on two numbers: NaN if either is NaN, and
    [+0] above [-0]. *)
Definition Math_max (a b : float) : float :=
  if is_nan a || is_nan b then nan
  else if b <? a then a
  else if a <? b then b
  else if is_zero a then a + b
  else a.

Definition Math_min (a b : float) : float :=
  if is_nan a || is_nan b then nan
  else if a <? b then a
  else if b <? a then b
  else if is_zero a then - (- a + - b)
  else a.

(** Pass 1, the body of [prevOranges.map]; [a > b] is [b <? a]. *)
Definition moveOrange (accel : Accel) (dt containerWidth containerHeight size : float)
    (orange : Orange) : Orange :=
  let vx1 := vx orange + ax accel * dt in
  let vy1 := vy orange + ay accel * dt in
  let x1 := x orange + vx1 * dt in
  let y1 := y orange + vy1 * dt in
  let '(x2, vx2) :=
    if x1 <? 0 then (0, - vx1 * 0.8)
    else if containerWidth <? x1 + size then (containerWidth - size, - vx1 * 0.8)
    else (x1, vx1) in
  let '(y2, vy2) :=
    if y1 <? 0 then (0, - vy1 * 0.8)
    else if containerHeight <? y1 + size then (containerHeight - size, - vy1 * 0.8)
    else (y1, vy1) in
  mkOrange (id orange) x2 y2 (vx2 * 0.99) (vy2 * 0.99).

Definition movePass (accel : Accel) (dt containerWidth containerHeight size : float)
    (prevOranges : list Orange) : list Orange :=
  map (moveOrange accel dt containerWidth containerHeight size) prevOranges.

Definition centerX (size : float) (orange : Orange) : float := x orange + size / 2.
Definition centerY (size : float) (orange : Orange) : float := y orange + size / 2.

(** [const effectiveRadius = size / 4], [const minDistance = effectiveRadius * 2] *)
Definition effectiveRadius (size : float) : float := size / 4.
Definition minDistance (size : float) : float := effectiveRadius size * 2.

Definition pairDx (size : float) (orangeA orangeB : Orange) : float :=
  centerX size orangeB - centerX size orangeA.
Definition pairDy (size : float) (orangeA orangeB : Orange) : float :=
  centerY size orangeB - centerY size orangeA.
Definition pairDistance (size : float) (orangeA orangeB : Orange) : float :=
  sqrt (pairDx size orangeA orangeB * pairDx size orangeA orangeB
        + pairDy size orangeA orangeB * pairDy size orangeA orangeB).

(** [nx], [ny], [impulse] and [impulseScalar] of the inner loop. *)
Definition pairNx (size : float) (orangeA orangeB : Orange) : float :=
  pairDx size orangeA orangeB / pairDistance size orangeA orangeB.
Definition pairNy (size : float) (orangeA orangeB : Orange) : float :=
  pairDy size orangeA orangeB / pairDistance size orangeA orangeB.
Definition pairImpulse (size : float) (orangeA orangeB : Orange) : float :=
  (vx orangeA - vx orangeB) * pairNx size orangeA orangeB
  + (vy orangeA - vy orangeB) * pairNy size orangeA orangeB.
Definition impulseScalar (size : float) (orangeA orangeB : Orange) : float :=
  - pairImpulse size orangeA orangeB * 0.8.

(** Pass 2, the body of the inner loop for one pair. *)
Definition collide (size : float) (orangeA orangeB : Orange) : Orange * Orange :=
  let distance := pairDistance size orangeA orangeB in
  if (distance <? minDistance size) && (0 <? distance) then
    let overlap := (minDistance size - distance) / 2 in
    let nx := pairNx size orangeA orangeB in
    let ny := pairNy size orangeA orangeB in
    let xA := x orangeA - overlap * nx in
    let yA := y orangeA - overlap * ny in
    let xB := x orangeB + overlap * nx in
    let yB := y orangeB + overlap * ny in
    if pairImpulse size orangeA orangeB <? 0 then
      let s := impulseScalar size orangeA orangeB in
      (mkOrange (id orangeA) xA yA (vx orangeA + s * nx) (vy orangeA + s * ny),
       mkOrange (id orangeB) xB yB (vx orangeB - s * nx) (vy orangeB - s * ny))
    else
      (mkOrange (id orangeA) xA yA (vx orangeA) (vy orangeA),
       mkOrange (id orangeB) xB yB (vx orangeB) (vy orangeB))
  else (orangeA, orangeB).

Fixpoint setAt (i : nat) (v : Orange) (arr : list Orange) : list Orange :=
  match arr, i with
  | [], _ => []
  | _ :: tl, O => v :: tl
  | hd :: tl, S i' => hd :: setAt i' v tl
  end.

Definition collideAt (size : float) (i j : nat) (arr : list Orange) : list Orange :=
  match nth_error arr i, nth_error arr j with
  | Some orangeA, Some orangeB =>
      let '(a', b') := collide size orangeA orangeB in
      setAt j b' (setAt i a' arr)
  | _, _ => arr
  end.

Definition collisionPass (size : float) (arr : list Orange) : list Orange :=
  let n := length arr in
  fold_left
    (fun acc i =>
       fold_left (fun acc' j => collideAt size i j acc')
                 (seq (S i) (n - S i)) acc)
    (seq 0 n) arr.

Definition nearestX (size : float) (buttonRect : Rect) (orange : Orange) : float :=
  Math_max (left buttonRect) (Math_min (centerX size orange) (right buttonRect)).
Definition nearestY (size : float) (buttonRect : Rect) (orange : Orange) : float :=
  Math_max (top buttonRect) (Math_min (centerY size orange) (bottom buttonRect)).

Definition distX (size : float) (buttonRect : Rect) (orange : Orange) : float :=
  centerX size orange - nearestX size buttonRect orange.
Definition distY (size : float) (buttonRect : Rect) (orange : Orange) : float :=
  centerY size orange - nearestY size buttonRect orange.
Definition buttonDist (size : float) (buttonRect : Rect) (orange : Orange) : float :=
  sqrt (distX size buttonRect orange * distX size buttonRect orange
        + distY size buttonRect orange * distY size buttonRect orange).

(** [(nx, ny)]: [(0, -1)] when [dist === 0], else [(distX / dist, distY / dist)]. *)
Definition buttonNormal (size : float) (buttonRect : Rect) (orange : Orange)
    : float * float :=
  let dist := buttonDist size buttonRect orange in
  if dist =? 0 then (0, -1)
  else (distX size buttonRect orange / dist, distY size buttonRect orange / dist).

(** Pass 3, the body of the loop over the oranges. *)
Definition hitButton (size : float) (buttonRect : Rect) (orange : Orange) : Orange :=
  let dist := buttonDist size buttonRect orange in
  if dist <? effectiveRadius size then
    let '(nx, ny) := buttonNormal size buttonRect orange in
    let dot := vx orange * nx + vy orange * ny in
    let penetration := effectiveRadius size - dist in
    mkOrange (id orange)
             (x orange + nx * penetration) (y orange + ny * penetration)
             (vx orange - 2 * dot * nx) (vy orange - 2 * dot * ny)
  else orange.

(** The function given to [setOranges] by [update]. *)
Definition update (accel : Accel) (dt containerWidth containerHeight : float)
    (button : option Rect) (prevOranges : list Orange) : list Orange :=
  let size := orangeSize in
  let moved := movePass accel dt containerWidth containerHeight size prevOranges in
  let bounced := collisionPass size moved in
  match button with
  | Some buttonRect => map (hitButton size buttonRect) bounced
  | None => bounced
  end.



(** What the wall code leaves in one coordinate [v]: not below 0, and
    either a wall value ([0], or the computed [limit - size]) or a value
    that passes the far-wall test [v + size > limit]. *)
Definition walled (limit size v : float) : Prop :=
  (v <? 0) = false
  /\ (v = 0 \/ v = limit - size \/ (limit <? v + size) = false).



End Physics64.

(** * The timer *)

Module TimerFacts.

Import Timer.
Local Open Scope Z_scope.

Lemma Mode_eqb_eq (a b : Mode) : Mode_eqb a b = true <-> a = b.
Proof. destruct a, b; simpl; split; congruence. Qed.

Lemma Mode_eqb_refl (a : Mode) : Mode_eqb a a = true.
Proof. now destruct a. Qed.

Lemma run_app (evs1 evs2 : list Event) (s : State) :
  run (evs1 ++ evs2) s = run evs2 (run evs1 s).
Proof. unfold run. apply fold_left_app. Qed.

Lemma reachable_run (evs : list Event) (s : State) :
  reachable s -> reachable (run evs s).
Proof.
  revert s. induction evs as [|ev evs IH]; intros s Hs; simpl.
  - exact Hs.
  - apply IH. now constructor.
Qed.

(** The effects never touch [endTime] nor [mode]. *)
Lemma modeEffect_endTime (s : State) : endTime (modeEffect s) = endTime s.
Proof.
  unfold modeEffect.
  destruct (mode s) eqn:Hm; simpl;
    repeat match goal with |- context [if ?b then _ else _] => destruct b; simpl end;
    reflexivity.
Qed.

Lemma modeEffect_mode (s : State) : mode (modeEffect s) = mode s.
Proof.
  unfold modeEffect.
  destruct (mode s) eqn:Hm; simpl;
    repeat match goal with |- context [if ?b then _ else _] => destruct b; simpl end;
    congruence.
Qed.

Lemma resetEffect_endTime (s : State) : endTime (resetEffect s) = endTime s.
Proof. unfold resetEffect. now destruct (mode s). Qed.

Lemma resetEffect_mode (s : State) : mode (resetEffect s) = mode s.
Proof. unfold resetEffect. destruct (mode s) eqn:Hm; simpl; congruence. Qed.

Lemma step_endTime (ev : Event) (s : State) :
  endTime (step ev s) = endTime (handle ev s).
Proof.
  unfold step.
  destruct (resetEffectDue s (handle ev s)), (modeEffectDue ev s (handle ev s));
    rewrite ?resetEffect_endTime, ?modeEffect_endTime; reflexivity.
Qed.

Lemma step_mode (ev : Event) (s : State) :
  mode (step ev s) = mode (handle ev s).
Proof.
  unfold step.
  destruct (resetEffectDue s (handle ev s)), (modeEffectDue ev s (handle ev s));
    rewrite ?resetEffect_mode, ?modeEffect_mode; reflexivity.
Qed.

(** No handler writes [null] into [endTime]. *)
Lemma handle_keeps_deadline (ev : Event) (s : State) :
  endTime s <> None -> endTime (handle ev s) <> None.
Proof.
  intros H. destruct ev; simpl; try exact H.
  - unfold startWork. destruct (mode s); simpl; try exact H; discriminate.
  - unfold startBreak. destruct (mode s); simpl; try exact H; discriminate.
  - unfold tick. destruct (mode s), (endTime s) as [e|] eqn:He; simpl; try congruence;
      destruct (secondsLeft e now =? 0); simpl; congruence.
  - unfold handleSaveSettings. destruct clickedMode; simpl; exact H.
Qed.

(** A handler leaves [idle] only by writing a deadline. *)
Lemma handle_deadline_outside_idle (ev : Event) (s : State) :
  (mode s <> idle -> endTime s <> None) ->
  mode (handle ev s) <> idle -> endTime (handle ev s) <> None.
Proof.
  intros Inv. destruct ev; simpl; try exact Inv.
  - unfold startWork. destruct (mode s) eqn:Hm; simpl; try discriminate;
      intros _; apply Inv; congruence.
  - unfold startBreak. destruct (mode s) eqn:Hm; simpl; try discriminate;
      intros Hn; apply Inv; congruence.
  - unfold tick.
    destruct (mode s) eqn:Hm; destruct (endTime s) as [e|] eqn:He;
      try destruct (secondsLeft e now =? 0); simpl; rewrite ?Hm, ?He; intros Hn;
      try congruence; exfalso; apply Inv; congruence.
  - unfold handleSaveSettings. destruct clickedMode; simpl; exact Inv.
Qed.

(** ** C1 *)

(** C1, as the code has it: in mode [work] or [break] with a deadline [e],
    the interval callback sets the displayed seconds to
    [max 0 (floor ((e - now) / 1000))]: 0 for every [now] at or past the
    deadline, and otherwise the number of whole seconds that remain. *)
Theorem tick_sets_floor_of_remaining (s : State) (now e : Z) :
  mode s = work \/ mode s = break ->
  endTime s = Some e ->
  currentTime (tick now s) = Z.max 0 ((e - now) / 1000)
  /\ (e <= now -> currentTime (tick now s) = 0)
  /\ (now < e ->
      1000 * currentTime (tick now s) <= e - now
        < 1000 * currentTime (tick now s) + 1000).
Proof.
  intros Hm He.
  assert (Hc : currentTime (tick now s) = secondsLeft e now).
  { unfold tick. destruct Hm as [Hm|Hm]; rewrite Hm, He;
      destruct (secondsLeft e now =? 0); reflexivity. }
  rewrite Hc. unfold secondsLeft.
  pose proof (Z.div_mod (e - now) 1000 ltac:(lia)) as Hdm.
  pose proof (Z.mod_pos_bound (e - now) 1000 ltac:(lia)) as Hb.
  split; [reflexivity|]. split; intros; lia.
Qed.

Lemma tick_sets_floor_of_remaining_witness :
  let s := run [SetWorkTime 1; StartWork 0] init in
  mode s = work /\ endTime s = Some 60000
  /\ currentTime (tick 58400 s) = Z.max 0 ((60000 - 58400) / 1000).
Proof.
  intros s.
  assert (Hm : mode s = work) by reflexivity.
  assert (He : endTime s = Some 60000) by reflexivity.
  split; [exact Hm|]. split; [exact He|].
  exact (proj1 (tick_sets_floor_of_remaining s 58400 60000 (or_introl Hm) He)).
Defined.

(** C1, as stated, fails: 1.6 s before the deadline the callback shows 1,
    and rounding to the nearest second gives 2. *)
Lemma tick_does_not_round :
  let s := run [SetWorkTime 1; StartWork 0] init in
  mode s = work /\ endTime s = Some 60000
  /\ currentTime (tick 58400 s) = 1
  /\ roundedSecondsLeft 60000 58400 = 2.
Proof. vm_compute. repeat split. Qed.

(** ** C2 *)

(** C2, as the code has it: in every reachable state the deadline is
    present whenever [mode] is not [idle]; [startWork] and [startBreak]
    write it from their source modes; and no event ever writes [null] back,
    so a deadline, once set, stays. *)
Theorem deadline_set_and_never_cleared (s : State) :
  reachable s ->
  (mode s <> idle -> endTime s <> None)
  /\ (forall now, mode s = idle ->
        endTime (step (StartWork now) s) = Some (now + workTime s * 60 * 1000))
  /\ (forall now, mode s = finishedWork ->
        endTime (step (StartBreak now) s) = Some (now + breakTime s * 60 * 1000))
  /\ (forall ev, endTime s <> None -> endTime (step ev s) <> None).
Proof.
  intros Hr. split; [|split; [|split]].
  - induction Hr as [|ev s Hr IH].
    + simpl. congruence.
    + rewrite step_mode, step_endTime. now apply handle_deadline_outside_idle.
  - intros now Hm. rewrite step_endTime. simpl. unfold startWork. now rewrite Hm.
  - intros now Hm. rewrite step_endTime. simpl. unfold startBreak. now rewrite Hm.
  - intros ev H. rewrite step_endTime. now apply handle_keeps_deadline.
Qed.

Lemma deadline_set_and_never_cleared_witness :
  let s := run [StartWork 0; Tick 1800000] init in
  reachable s /\ mode s = finishedWork /\ endTime s <> None.
Proof.
  intros s.
  assert (Hr : reachable s) by (apply reachable_run; constructor).
  split; [exact Hr|]. split; [reflexivity|].
  apply (proj1 (deadline_set_and_never_cleared s Hr)).
  discriminate.
Defined.

(** C2, as stated, fails: after one full cycle the timer is back in [idle]
    with the deadline of the break still stored; and in [finishedWork] the
    deadline of the work phase is still stored. *)
Lemma idle_with_deadline_reachable :
  let s1 := run [StartWork 0; Tick 1800000] init in
  let s2 := run [StartWork 0; Tick 1800000; StartBreak 1800000; Tick 2100000] init in
  reachable s1 /\ mode s1 = finishedWork /\ endTime s1 = Some 1800000
  /\ reachable s2 /\ mode s2 = idle /\ endTime s2 = Some 2100000
  /\ ~ (endTime s2 = None <-> mode s2 = idle).
Proof.
  intros s1 s2.
  split; [apply reachable_run; constructor|].
  split; [reflexivity|]. split; [reflexivity|].
  split; [apply reachable_run; constructor|].
  split; [reflexivity|]. split; [reflexivity|].
  intros [_ H]. specialize (H eq_refl). discriminate H.
Qed.

(** ** C4 *)

(** C4: [startWork] outside [idle] and [startBreak] outside
    [finishedWork] leave the whole state as it was (no field changes, no
    effect runs). *)
Theorem start_outside_source_mode_is_noop (s : State) (now : Z) :
  (mode s <> idle -> step (StartWork now) s = s)
  /\ (mode s <> finishedWork -> step (StartBreak now) s = s).
Proof.
  split; intros Hm; unfold step; simpl.
  - assert (E : startWork now s = s)
      by (unfold startWork; destruct (mode s); congruence).
    rewrite E. unfold modeEffectDue, resetEffectDue.
    now rewrite Mode_eqb_refl, Bool.eqb_reflx, Z.eqb_refl.
  - assert (E : startBreak now s = s)
      by (unfold startBreak; destruct (mode s); congruence).
    rewrite E. unfold modeEffectDue, resetEffectDue.
    now rewrite Mode_eqb_refl, Bool.eqb_reflx, Z.eqb_refl.
Qed.

Lemma start_outside_source_mode_is_noop_witness :
  let s := run [StartWork 0] init in
  mode init <> finishedWork /\ step (StartBreak 7) init = init
  /\ mode s <> idle /\ step (StartWork 7) s = s.
Proof.
  intros s.
  assert (H1 : mode init <> finishedWork) by discriminate.
  assert (H2 : mode s <> idle) by discriminate.
  split; [exact H1|].
  split; [exact (proj2 (start_outside_source_mode_is_noop init 7) H1)|].
  split; [exact H2|].
  exact (proj1 (start_outside_source_mode_is_noop s 7) H2).
Defined.

(** ** C3 *)

(** After every step the ref holds the current mode whenever the mode
    effect ran last with it; this is what makes the [break -> idle] branch
    fire once. *)
Lemma modeEffect_prevModeRef (s : State) :
  prevModeRef (modeEffect s) = mode (modeEffect s).
Proof.
  unfold modeEffect.
  destruct (mode s) eqn:Hm; simpl;
    repeat match goal with |- context [if ?b then _ else _] => destruct b; simpl end;
    reflexivity.
Qed.

Lemma step_prevModeRef (ev : Event) (s : State) :
  prevModeRef s = mode s -> prevModeRef (step ev s) = mode (step ev s).
Proof.
  intros H. unfold step.
  destruct (modeEffectDue ev s (handle ev s)) eqn:Hd.
  - destruct (resetEffectDue s (handle ev s)).
    + unfold resetEffect.
      destruct (mode (modeEffect (handle ev s))) eqn:Hm; simpl;
        rewrite ?modeEffect_prevModeRef; congruence.
    + apply modeEffect_prevModeRef.
  - unfold modeEffectDue in Hd.
    apply Bool.orb_false_iff in Hd. destruct Hd as [Hd _].
    apply Bool.orb_false_iff in Hd. destruct Hd as [Hd _].
    apply Bool.negb_false_iff, Mode_eqb_eq in Hd.
    assert (Hp : prevModeRef (handle ev s) = prevModeRef s).
    { destruct ev; simpl; try reflexivity.
      - unfold startWork. now destruct (mode s).
      - unfold startBreak. now destruct (mode s).
      - unfold tick. destruct (mode s), (endTime s) as [e|]; try reflexivity;
          now destruct (secondsLeft e now =? 0).
      - unfold handleSaveSettings. now destruct clickedMode. }
    destruct (resetEffectDue s (handle ev s)).
    + unfold resetEffect. destruct (mode (handle ev s)) eqn:Hm; simpl; congruence.
    + congruence.
Qed.

(** X21.  The sibling path is right: over every run, [recordPomodoro] is
    called once for each step that takes [mode] from [break] to [idle],
    whatever the delay of the ticks and whatever else happens in between. *)
Lemma recorded_once_per_break_end (evs : list Event) (s : State) :
  prevModeRef s = mode s ->
  recorded (run evs s) = (recorded s + crossings break idle evs s)%nat.
Proof.
  revert s. induction evs as [|ev evs IH]; intros s Hp; simpl.
  - lia.
  - rewrite (IH (step ev s) (step_prevModeRef ev s Hp)).
    assert (Hs : recorded (step ev s)
                 = (recorded s + if Mode_eqb (mode s) break && Mode_eqb (mode (step ev s)) idle
                                 then 1 else 0)%nat).
    { rewrite step_mode. unfold step.
      assert (Hrec : forall t, recorded (resetEffect t) = recorded t)
        by (intros t; unfold resetEffect; now destruct (mode t)).
      assert (Hh : recorded (handle ev s) = recorded s /\ prevModeRef (handle ev s) = mode s).
      { rewrite <- Hp. destruct ev; simpl; try (split; reflexivity).
        - unfold startWork. now destruct (mode s).
        - unfold startBreak. now destruct (mode s).
        - unfold tick. destruct (mode s), (endTime s) as [e|]; try (split; reflexivity);
            now destruct (secondsLeft e now =? 0).
        - unfold handleSaveSettings. now destruct clickedMode. }
      destruct Hh as [Hh1 Hh2].
      assert (Hme : recorded (modeEffect (handle ev s))
                    = (recorded s + if Mode_eqb (mode s) break && Mode_eqb (mode (handle ev s)) idle
                                    then 1 else 0)%nat).
      { unfold modeEffect.
        destruct (mode (handle ev s)) eqn:Hm; simpl; rewrite ?Hm, ?Hh1, ?Hh2;
          destruct (vibrationEnabled (handle ev s)); simpl; rewrite ?Hm, ?Hh1, ?Hh2;
          destruct (mode s); simpl; lia. }
      destruct (modeEffectDue ev s (handle ev s)) eqn:Hd.
      - destruct (resetEffectDue s (handle ev s)); rewrite ?Hrec; exact Hme.
      - unfold modeEffectDue in Hd.
        apply Bool.orb_false_iff in Hd. destruct Hd as [Hd _].
        apply Bool.orb_false_iff in Hd. destruct Hd as [Hd _].
        apply Bool.negb_false_iff, Mode_eqb_eq in Hd.
        destruct (resetEffectDue s (handle ev s)); rewrite ?Hrec, Hh1, <- Hd;
          destruct (mode s); simpl; lia. }
    rewrite Hs. lia.
Qed.

(** Away from changes of the other two dependencies the reward is right as
    well: over a run of events that keep them, [launchConfetti] is called
    once for each step from [work] to [finishedWork] and once for each step
    from [break] to [idle]. *)
Lemma confetti_step (ev : Event) (s : State) :
  prevModeRef s = mode s -> keepsEffectDeps ev = true ->
  confetti (step ev s)
  = (confetti s
     + (if Mode_eqb (mode s) work && Mode_eqb (mode (step ev s)) finishedWork then 1 else 0)
     + (if Mode_eqb (mode s) break && Mode_eqb (mode (step ev s)) idle then 1 else 0))%nat.
Proof.
  intros Hp Hq. rewrite step_mode. unfold step.
  assert (Hconf : forall t, confetti (resetEffect t) = confetti t)
    by (intros t; unfold resetEffect; now destruct (mode t)).
  destruct (resetEffectDue s (handle ev s)); rewrite ?Hconf; clear Hconf;
    destruct s as [wt bt ct m e v pm c vb r]; simpl in Hp; subst pm;
    destruct ev; try discriminate Hq; simpl;
    unfold startWork, startBreak, tick, handleSaveSettings, settingsLoaded,
      modeEffectDue, modeEffect; simpl;
    destruct m; simpl;
    try (match goal with cm : Mode |- _ => destruct cm; simpl end);
    rewrite ?Bool.eqb_reflx; simpl; try lia;
    try (destruct e as [e|]; simpl; rewrite ?Bool.eqb_reflx; simpl; try lia;
         destruct (secondsLeft e now =? 0); simpl; rewrite ?Bool.eqb_reflx; simpl;
         try lia; destruct v; simpl; lia);
    destruct v; simpl; lia.
Qed.

(** X22.  Over a run of events that leave [vibrationEnabled] and
    [recordPomodoro] alone, [launchConfetti] is called once for each step
    from [work] to [finishedWork] and once for each step from [break] to
    [idle], and at no other time. *)
Lemma confetti_once_per_completion (evs : list Event) (s : State) :
  prevModeRef s = mode s -> forallb keepsEffectDeps evs = true ->
  confetti (run evs s)
  = (confetti s + crossings work finishedWork evs s + crossings break idle evs s)%nat.
Proof.
  revert s. induction evs as [|ev evs IH]; intros s Hp Hq; simpl.
  - lia.
  - simpl in Hq. apply Bool.andb_true_iff in Hq. destruct Hq as [Hev Hq].
    rewrite (IH (step ev s) (step_prevModeRef ev s Hp) Hq).
    rewrite (confetti_step ev s Hp Hev). lia.
Qed.

(** A tick at or after the deadline, however late, completes the phase in
    that one step. *)
Lemma late_tick_completes (s : State) (now e : Z) :
  endTime s = Some e -> e <= now ->
  (mode s = work -> mode (step (Tick now) s) = finishedWork)
  /\ (mode s = break -> mode (step (Tick now) s) = idle).
Proof.
  intros He Hle.
  assert (Hz : (secondsLeft e now =? 0) = true).
  { apply Z.eqb_eq. unfold secondsLeft.
    pose proof (Z.div_mod (e - now) 1000 ltac:(lia)).
    pose proof (Z.mod_pos_bound (e - now) 1000 ltac:(lia)). lia. }
  split; intros Hm; rewrite step_mode; simpl; unfold tick; now rewrite Hm, He, Hz.
Qed.

(** C3 fails for the reward notification: one crossing from [work] to
    [finishedWork], and [launchConfetti] is called twice, because the mode
    effect runs again when [vibrationEnabled] changes while the mode is
    still [finishedWork]. *)
Theorem reward_fires_again_in_finishedWork :
  let evs := [StartWork 0; Tick 1800000; EnableVibration] in
  crossings work finishedWork evs init = 1%nat
  /\ mode (run evs init) = finishedWork
  /\ confetti (run [StartWork 0; Tick 1800000] init) = 1%nat
  /\ confetti (run evs init) = 2%nat.
Proof. vm_compute. repeat split. Qed.

End TimerFacts.

(** * The oranges *)

Module PhysicsFacts.

Import Physics.
Local Open Scope R_scope.

(** ** Square roots of the distances that occur *)


(** ** C9 *)

(** When [window.DeviceOrientationEvent] is missing, the selection made by
    [update] is the default vector in every motion state.  (With the global
    not declared at all, the render of the component already throws at
    [DeviceOrientationEvent as ...], before any frame.) *)
Lemma selectAccel_without_api (d : Device) (m : Motion) :
  hasDeviceOrientationEvent d = false -> selectAccel d m = defaultAccel.
Proof.
  intros H. unfold selectAccel. rewrite H. simpl.
  now rewrite Bool.orb_true_r.
Qed.

(** While consent is needed and not granted the default vector is used. *)
Lemma selectAccel_without_consent (d : Device) (m : Motion) :
  needsMotionPermission m = true -> motionPermissionGranted m = false ->
  selectAccel d m = defaultAccel.
Proof. intros H1 H2. unfold selectAccel. now rewrite H1, H2. Qed.

(** C9 fails before the first sample: on a device that has the orientation
    API and no consent gate, the mounted component is subscribed, no sample
    has been delivered, and [update] integrates with the initial value of
    [accelRef] scaled by [velocityBoost], which is [(0, 0)] and not the
    default [(0, 500)]. *)
Theorem accel_before_first_sample :
  let d := mkDevice true false in
  let m := motionMount d motionInit in
  needsMotionPermission m = false /\ listening m = true
  /\ selectAccel d m = mkAccel (0 * velocityBoost) (0 * velocityBoost)
  /\ ay (selectAccel d m) = 0
  /\ selectAccel d m <> defaultAccel.
Proof.
  simpl. unfold selectAccel. simpl.
  repeat (split; [reflexivity|]).
  split; [lra|].
  unfold defaultAccel. intros H. injection H as _ H. lra.
Qed.

(** ** C6 *)

Lemma newOranges_length (now : nat -> Z) (w h : R) (random : nat -> R) (k : nat) :
  length (newOranges now w h random k) = k.
Proof. unfold newOranges. now rewrite length_map, length_seq. Qed.

Lemma newOrange_at_rest_inside (now : Z) (w h rx ry : R) (i : nat) :
  orangeSize <= w -> orangeSize <= h -> 0 <= rx < 1 -> 0 <= ry < 1 ->
  let o := newOrange now w h rx ry i in
  vx o = 0 /\ vy o = 0 /\ contained w h orangeSize o.
Proof.
  intros Hw Hh Hx Hy. simpl. unfold contained. simpl.
  repeat split; try reflexivity; nra.
Qed.

(** C6: with [n] oranges in a container that can hold one, a count of
    [n + k] appends exactly [k] oranges to the end of the array, each at
    rest and inside the container; a count of [n - k] keeps the first
    [n - k] oranges as they are and drops exactly the last [k], the ones
    appended most recently.  [random] returns values of [Math.random()],
    which lie in [0, 1). *)
Theorem population_tracks_count (n k : nat) (now : nat -> Z) (w h : R)
    (random : nat -> R) (oranges : list Orange) :
  length oranges = n ->
  orangeSize <= w -> orangeSize <= h ->
  (forall i, 0 <= random i < 1) ->
  (exists added,
      adjustPopulation (n + k) now w h random oranges = oranges ++ added
      /\ length added = k
      /\ Forall (fun o => vx o = 0 /\ vy o = 0 /\ contained w h orangeSize o) added)
  /\ ((k <= n)%nat ->
      exists removed,
        oranges = adjustPopulation (n - k) now w h random oranges ++ removed
        /\ length removed = k
        /\ adjustPopulation (n - k) now w h random oranges = firstn (n - k) oranges).
Proof.
  intros Hn Hw Hh Hr. split.
  - unfold adjustPopulation. rewrite Hn.
    destruct (Nat.ltb_spec n (n + k)) as [Hlt|Hge].
    + exists (newOranges now w h random (n + k - n)).
      split; [reflexivity|]. split.
      * rewrite newOranges_length. lia.
      * unfold newOranges. apply Forall_forall. intros o Ho.
        apply in_map_iff in Ho. destruct Ho as (i & <- & _).
        now apply newOrange_at_rest_inside.
    + assert (k = 0)%nat by lia. subst k.
      exists []. rewrite Nat.add_0_r, Nat.ltb_irrefl, app_nil_r.
      repeat split. constructor.
  - intros Hk. exists (skipn (n - k) oranges).
    assert (E : adjustPopulation (n - k) now w h random oranges = firstn (n - k) oranges).
    { unfold adjustPopulation. rewrite Hn.
      destruct (Nat.ltb_spec n (n - k)) as [Hlt|Hge]; [lia|].
      destruct (Nat.ltb_spec (n - k) n) as [Hlt|Hge']; [reflexivity|].
      assert (k = 0)%nat by lia. subst k.
      rewrite Nat.sub_0_r, <- Hn. symmetry. apply firstn_all. }
    rewrite E. split; [symmetry; apply firstn_skipn|].
    split; [rewrite length_skipn; lia|reflexivity].
Qed.

Lemma population_tracks_count_witness :
  let oranges := [mkOrange 1 10 20 3 4; mkOrange 2 30 40 5 6] in
  let random := fun _ : nat => 1 / 2 in
  adjustPopulation 3 (fun _ => 100%Z) 400 300 random oranges
    = oranges ++ [mkOrange 100 (1 / 2 * (400 - orangeSize)) (1 / 2 * (300 - orangeSize)) 0 0]
  /\ adjustPopulation 1 (fun _ => 100%Z) 400 300 random oranges = [mkOrange 1 10 20 3 4].
Proof.
  intros oranges random.
  assert (Hw : orangeSize <= 400) by (unfold orangeSize; lra).
  assert (Hh : orangeSize <= 300) by (unfold orangeSize; lra).
  assert (Hr : forall i : nat, 0 <= random i < 1) by (intros i; unfold random; lra).
  destruct (population_tracks_count 2 1 (fun _ => 100%Z) 400 300 random oranges
              eq_refl Hw Hh Hr)
    as [_ Hshrink].
  destruct (Hshrink ltac:(lia)) as (removed & _ & _ & E).
  split; [reflexivity|exact E].
Defined.

(** C6, as stated, fails in a container narrower or lower than an orange:
    in a 50 x 60 container, with both draws of [Math.random()] equal to
    1/2, the orange added to an empty array is placed at [(-10, -5)],
    left of and above the container. *)
Lemma small_container_spawns_outside :
  exists o,
    adjustPopulation 1 (fun _ => 100%Z) 50 60 (fun _ => 1 / 2) [] = [o]
    /\ x o = -10 /\ y o = -5
    /\ ~ contained 50 60 orangeSize o.
Proof.
  exists (newOrange 100 50 60 (1 / 2) (1 / 2) 0).
  split; [reflexivity|]. unfold newOrange, orangeSize, contained. simpl.
  split; [lra|]. split; [lra|]. intros [[H _] _]. lra.
Qed.

(** ** Pairs that pass 2 leaves alone *)



End PhysicsFacts.

(** * The frame callback in binary64 *)

Module Binary64Facts.

Import Floats Physics64.
#[local] Set Warnings "-inexact-float".
Local Open Scope float_scope.

(** ** C5 *)

Lemma moveOrange_walled (accel : Accel) (dt w h size : float) (o : Orange) :
  (w - size <? 0) = false -> (h - size <? 0) = false ->
  walled w size (x (moveOrange accel dt w h size o))
  /\ walled h size (y (moveOrange accel dt w h size o)).
Proof.
  intros Hw Hh. unfold moveOrange, walled.
  set (x1 := x o + (vx o + ax accel * dt) * dt).
  set (y1 := y o + (vy o + ay accel * dt) * dt).
  destruct (x1 <? 0) eqn:Ex1; [|destruct (w <? x1 + size) eqn:Ex2];
    (destruct (y1 <? 0) eqn:Ey1; [|destruct (h <? y1 + size) eqn:Ey2]); simpl;
    repeat split; try reflexivity; try assumption;
    first [left; reflexivity | right; left; reflexivity | right; right; assumption].
Qed.

Lemma collisionPass_single (size : float) (a : Orange) : collisionPass size [a] = [a].
Proof. reflexivity.
Qed.

(** C5, as the code has it, in binary64: in a container for which the
    computed [width - size] and [height - size] are not negative, at the
    end of pass 1 (integration, walls, damping) of every frame each
    coordinate of each orange is not below 0 and is a wall value ([0] or
    the computed [limit - size]) or passes the code's far-wall test
    [v + size > limit], whatever the array of the previous frame was; and
    a frame on a single orange with no Start button ends in that state. *)
Theorem walled_after_movePass (accel : Accel) (dt w h : float)
    (prevOranges : list Orange) (o : Orange) :
  (w - orangeSize <? 0) = false -> (h - orangeSize <? 0) = false ->
  Forall (fun o' => walled w orangeSize (x o') /\ walled h orangeSize (y o'))
         (movePass accel dt w h orangeSize prevOranges)
  /\ Forall (fun o' => walled w orangeSize (x o') /\ walled h orangeSize (y o'))
            (update accel dt w h None [o]).
Proof.
  intros Hw Hh. split.
  - unfold movePass. apply Forall_forall. intros o' Ho'.
    apply in_map_iff in Ho'. destruct Ho' as (o0 & <- & _).
    now apply moveOrange_walled.
  - unfold update, movePass. simpl map. rewrite collisionPass_single.
    constructor; [now apply moveOrange_walled|constructor].
Qed.

Lemma walled_after_movePass_witness :
  Forall (fun o' => walled 400 orangeSize (x o') /\ walled 300 orangeSize (y o'))
         (movePass defaultAccel 0.015625 400 300 orangeSize
                   [mkOrange 1 0 230 0 0; mkOrange 2 10 230 0 0]).
Proof.
  apply (proj1 (walled_after_movePass defaultAccel 0.015625 400 300
                  [mkOrange 1 0 230 0 0; mkOrange 2 10 230 0 0]
                  (mkOrange 1 0 230 0 0) eq_refl eq_refl)).
Defined.

(** The far-wall test rounds: an orange 70 px from the right wall of a
    520 px container, drifting right by [2^-44] px in the frame, passes
    the test [x + size > containerWidth] (the sum rounds to 520) and ends
    pass 1 at [450.00000000000006], above [520 - 70]. *)
Lemma far_wall_test_rounds :
  let o' := moveOrange (mkAccel 0 0) 1 520 400 orangeSize (mkOrange 1 450 100 0x1p-44 0) in
  x o' = 450.00000000000006
  /\ (520 <? x o' + orangeSize) = false
  /\ (520 - orangeSize <? x o') = true.
Proof. vm_compute. repeat split. Qed.

(** C5, as stated, fails: two oranges at rest on the floor of a 400 x 300
    container, one against the left wall and one 10 px to its right, both
    inside.  One frame of 1/64 s under the default acceleration: pass 1
    leaves both where they are, pass 2 finds their centres 10 px apart and
    moves each by 12.5 px, and the first one ends at [x = -12.5]. *)
Lemma collision_pushes_orange_through_wall :
  let prevOranges := [mkOrange 1 0 230 0 0; mkOrange 2 10 230 0 0] in
  let frame := update defaultAccel 0.015625 400 300 None prevOranges in
  map x prevOranges = [0; 10] /\ map y prevOranges = [230; 230]
  /\ (300 - orangeSize =? 230) = true
  /\ map x frame = [-12.5; 22.5] /\ map y frame = [230; 230]
  /\ existsb (fun o => x o <? 0) frame = true.
Proof. vm_compute. repeat split. Qed.

(** ** C7 *)





(** ** C8 *)



(** ** C10 *)




End Binary64Facts.

(** * More on the timer *)

Module CycleFacts.

Import Timer TimerFacts.
Local Open Scope Z_scope.

Lemma secondsLeft_zero_iff (e now : Z) :
  secondsLeft e now = 0 <-> e - now < 1000.
Proof.
  unfold secondsLeft.
  pose proof (Z.div_mod (e - now) 1000 ltac:(lia)) as Hdm.
  pose proof (Z.mod_pos_bound (e - now) 1000 ltac:(lia)) as Hb.
  split; intros H; lia.
Qed.

Lemma secondsLeft_antitone (e now1 now2 : Z) :
  now1 <= now2 -> 0 <= secondsLeft e now2 <= secondsLeft e now1.
Proof.
  intros H. unfold secondsLeft.
  assert (Hd : (e - now2) / 1000 <= (e - now1) / 1000)
    by (apply Z.div_le_mono; lia).
  lia.
Qed.

(** X1.  The mode moves only along the cycle, and each edge has its own
    trigger: [idle -> work] on Start, [work -> finishedWork] on a tick,
    [finishedWork -> break] on Start Pause, [break -> idle] on a tick.
    Every other event, in every state, leaves the mode as it is. *)
Theorem mode_moves_only_along_cycle (ev : Event) (s : State) :
  mode (step ev s) = mode s
  \/ (mode s = idle /\ mode (step ev s) = work /\ exists now, ev = StartWork now)
  \/ (mode s = work /\ mode (step ev s) = finishedWork /\ exists now, ev = Tick now)
  \/ (mode s = finishedWork /\ mode (step ev s) = break /\ exists now, ev = StartBreak now)
  \/ (mode s = break /\ mode (step ev s) = idle /\ exists now, ev = Tick now).
Proof.
  rewrite step_mode. destruct ev; simpl; try (left; reflexivity).
  - unfold startWork. destruct (mode s) eqn:Hm; simpl; rewrite ?Hm; try (left; reflexivity).
    right; left. repeat split. now exists now.
  - unfold startBreak. destruct (mode s) eqn:Hm; simpl; rewrite ?Hm; try (left; reflexivity).
    right; right; right; left. repeat split. now exists now.
  - unfold tick.
    destruct (mode s) eqn:Hm; try (left; now rewrite Hm);
      destruct (endTime s) as [e|]; try (left; now rewrite Hm);
      destruct (secondsLeft e now =? 0); simpl; rewrite ?Hm; try (left; reflexivity).
    + right; right; left. repeat split. now exists now.
    + right; right; right; right. repeat split. now exists now.
  - unfold handleSaveSettings. destruct clickedMode; simpl; now left.
Qed.

(** X2.  In every reachable state the ref [prevModeRef] holds the current
    mode: the mode effect has always run since the last change of mode. *)
Theorem prevModeRef_tracks_mode (s : State) :
  reachable s -> prevModeRef s = mode s.
Proof.
  induction 1 as [|ev s Hr IH].
  - reflexivity.
  - now apply step_prevModeRef.
Qed.

Lemma prevModeRef_tracks_mode_witness :
  let s := run [StartWork 0; Tick 1800000; StartBreak 1800000] init in
  reachable s /\ prevModeRef s = break.
Proof.
  intros s.
  assert (Hr : reachable s) by (apply reachable_run; constructor).
  split; [exact Hr|].
  rewrite (prevModeRef_tracks_mode s Hr). reflexivity.
Defined.

Lemma modeEffect_display (s : State) :
  currentTime (modeEffect s) = currentTime s /\ workTime (modeEffect s) = workTime s.
Proof.
  unfold modeEffect.
  destruct (mode s) eqn:Hm; simpl;
    repeat match goal with |- context [if ?b then _ else _] => destruct b; simpl end;
    split; reflexivity.
Qed.

Lemma idle_display_step (ev : Event) (s : State) :
  (mode s = idle -> currentTime s = workTime s * 60) ->
  freshSave ev s ->
  mode (step ev s) = idle -> currentTime (step ev s) = workTime (step ev s) * 60.
Proof.
  intros IH Hfresh Hidle. pose proof Hidle as Hh. rewrite step_mode in Hh.
  unfold step in *.
  set (s1 := if modeEffectDue ev s (handle ev s)
             then modeEffect (handle ev s) else handle ev s) in *.
  assert (H1 : mode s1 = idle /\ currentTime s1 = currentTime (handle ev s)
               /\ workTime s1 = workTime (handle ev s)).
  { subst s1. destruct (modeEffectDue ev s (handle ev s)).
    - rewrite modeEffect_mode. destruct (modeEffect_display (handle ev s)). auto.
    - auto. }
  destruct H1 as (Hm1 & Hc1 & Hw1).
  destruct (resetEffectDue s (handle ev s)) eqn:Hdue.
  - unfold resetEffect. rewrite Hm1. reflexivity.
  - rewrite Hc1, Hw1. unfold resetEffectDue in Hdue.
    apply Bool.orb_false_iff in Hdue. destruct Hdue as [Hw Hm].
    apply Bool.negb_false_iff, Z.eqb_eq in Hw.
    apply Bool.negb_false_iff, Mode_eqb_eq in Hm.
    assert (Hs : mode s = idle) by congruence.
    specialize (IH Hs). clear s1 Hm1 Hc1 Hw1 Hidle.
    destruct ev; simpl in *; try exact IH.
    + unfold startWork in *. rewrite Hs in *. discriminate.
    + unfold startBreak in *. rewrite Hs in *. exact IH.
    + unfold tick in *. rewrite Hs in *. exact IH.
    + congruence.
    + unfold handleSaveSettings. destruct clickedMode; simpl; congruence.
    + reflexivity.
Qed.

(** X3.  Over every run in which each Save resumes with the [workTime] it
    was clicked with, a state with mode [idle] shows the full work
    duration, [workTime * 60] seconds: after mount, after every change of
    [workTime], after the settings row arrives, and after a break runs
    out. *)
Theorem idle_shows_full_work_duration (evs : list Event) :
  freshRun evs init ->
  mode (run evs init) = idle ->
  currentTime (run evs init) = workTime (run evs init) * 60.
Proof.
  assert (H : forall s, (mode s = idle -> currentTime s = workTime s * 60) ->
              freshRun evs s -> mode (run evs s) = idle ->
              currentTime (run evs s) = workTime (run evs s) * 60).
  { induction evs as [|ev evs IH]; intros s Hinv Hfresh; simpl.
    - exact Hinv.
    - destruct Hfresh as [Hev Hrest]. apply IH; [|exact Hrest].
      now apply idle_display_step. }
  apply H. reflexivity.
Qed.

Lemma idle_shows_full_work_duration_witness :
  let evs := [SetWorkTime 45; SaveSettings idle 45; StartWork 0; Tick 2700000;
              StartBreak 2700000; Tick 3000000] in
  freshRun evs init /\ mode (run evs init) = idle
  /\ currentTime (run evs init) = 45 * 60.
Proof.
  intros evs.
  assert (Hf : freshRun evs init) by (simpl; repeat split; reflexivity).
  assert (Hm : mode (run evs init) = idle) by reflexivity.
  split; [exact Hf|]. split; [exact Hm|].
  exact (idle_shows_full_work_duration evs Hf Hm).
Defined.

(** A Save that resumes after [workTime] was changed writes the old
    duration: Save clicked at 30 minutes, "45 min" pressed during the
    [await], and the idle display is 30:00 with [workTime = 45]. *)
Lemma stale_save_shows_old_duration :
  let s := run [SetWorkTime 45; SaveSettings idle 30] init in
  mode s = idle /\ workTime s = 45 /\ currentTime s = 30 * 60.
Proof. repeat split. Qed.

Lemma tick_currentTime (s : State) (now e : Z) :
  mode s = work \/ mode s = break -> endTime s = Some e ->
  currentTime (tick now s) = secondsLeft e now.
Proof.
  intros Hm He. unfold tick.
  destruct Hm as [Hm|Hm]; rewrite Hm, He; now destruct (secondsLeft e now =? 0).
Qed.

(** A tick that leaves the mode alone triggers no effect: the step is the
    callback. *)
Lemma step_tick_same_mode (s : State) (now : Z) :
  mode (tick now s) = mode s -> step (Tick now) s = tick now s.
Proof.
  intros Hm. unfold step. simpl.
  assert (Hv : vibrationEnabled (tick now s) = vibrationEnabled s
               /\ workTime (tick now s) = workTime s).
  { unfold tick. destruct (mode s), (endTime s) as [e|]; try (split; reflexivity);
      now destruct (secondsLeft e now =? 0). }
  destruct Hv as [Hv Hw].
  unfold modeEffectDue, resetEffectDue.
  now rewrite Hm, Hv, Hw, Mode_eqb_refl, Bool.eqb_reflx, Z.eqb_refl.
Qed.

(** X4.  A running phase ends at the first tick that finds less than one
    whole second before the deadline, which can be up to 999 ms early;
    a tick with a second or more to go keeps the mode and shows at least
    1. *)
Theorem phase_ends_under_one_second (s : State) (now e : Z) :
  endTime s = Some e ->
  (mode s = work ->
     (mode (step (Tick now) s) = finishedWork <-> e - now < 1000)
     /\ (1000 <= e - now ->
         mode (step (Tick now) s) = work /\ 1 <= currentTime (step (Tick now) s)))
  /\ (mode s = break ->
     (mode (step (Tick now) s) = idle <-> e - now < 1000)
     /\ (1000 <= e - now ->
         mode (step (Tick now) s) = break /\ 1 <= currentTime (step (Tick now) s))).
Proof.
  intros He.
  pose proof (secondsLeft_zero_iff e now) as Hz.
  assert (Hpos : 1000 <= e - now -> 1 <= secondsLeft e now).
  { intros H. pose proof (secondsLeft_antitone e now now ltac:(lia)). lia. }
  split; intros Hm.
  - assert (Ht : mode (tick now s)
                 = if secondsLeft e now =? 0 then finishedWork else work).
    { unfold tick. rewrite Hm, He. destruct (secondsLeft e now =? 0); simpl; congruence. }
    split.
    + rewrite step_mode. simpl. rewrite Ht.
      destruct (Z.eqb_spec (secondsLeft e now) 0) as [E|E]; split; intros H;
        try reflexivity; try discriminate; tauto.
    + intros H. specialize (Hpos H).
      assert (E : (secondsLeft e now =? 0) = false) by (apply Z.eqb_neq; lia).
      rewrite E in Ht. rewrite step_tick_same_mode by congruence.
      split; [congruence|]. rewrite (tick_currentTime s now e); auto.
  - assert (Ht : mode (tick now s)
                 = if secondsLeft e now =? 0 then idle else break).
    { unfold tick. rewrite Hm, He. destruct (secondsLeft e now =? 0); simpl; congruence. }
    split.
    + rewrite step_mode. simpl. rewrite Ht.
      destruct (Z.eqb_spec (secondsLeft e now) 0) as [E|E]; split; intros H;
        try reflexivity; try discriminate; tauto.
    + intros H. specialize (Hpos H).
      assert (E : (secondsLeft e now =? 0) = false) by (apply Z.eqb_neq; lia).
      rewrite E in Ht. rewrite step_tick_same_mode by congruence.
      split; [congruence|]. rewrite (tick_currentTime s now e); auto.
Qed.

Lemma phase_ends_under_one_second_witness :
  let s := run [SetWorkTime 1; StartWork 0] init in
  endTime s = Some 60000 /\ mode s = work
  /\ mode (step (Tick 59001) s) = finishedWork
  /\ mode (step (Tick 59000) s) = work.
Proof.
  intros s.
  assert (He : endTime s = Some 60000) by reflexivity.
  assert (Hm : mode s = work) by reflexivity.
  split; [exact He|]. split; [exact Hm|]. split.
  - apply (proj1 (proj1 (phase_ends_under_one_second s 59001 60000 He) Hm)). lia.
  - apply (proj2 (proj1 (phase_ends_under_one_second s 59000 60000 He) Hm)). lia.
Defined.

(** X5.  After Start at [t0] with a non-negative [workTime], a poll at
    [t0] shows the full duration, and polls at later and later times show
    values that never rise, never exceed the full duration and never go
    below 0, whatever the gaps between the polls. *)
Theorem countdown_never_rises (s : State) (t0 now1 now2 : Z) :
  mode s = idle -> 0 <= workTime s -> t0 <= now1 -> now1 <= now2 ->
  let s1 := step (StartWork t0) s in
  currentTime (tick t0 s1) = workTime s * 60
  /\ 0 <= currentTime (tick now2 s1)
  /\ currentTime (tick now2 s1) <= currentTime (tick now1 s1)
  /\ currentTime (tick now1 s1) <= workTime s * 60.
Proof.
  intros Hm Hw H1 H2 s1.
  assert (Hm1 : mode s1 = work).
  { subst s1. rewrite step_mode. simpl. unfold startWork. now rewrite Hm. }
  assert (He1 : endTime s1 = Some (t0 + workTime s * 60 * 1000)).
  { subst s1. rewrite step_endTime. simpl. unfold startWork. now rewrite Hm. }
  rewrite !(tick_currentTime s1 _ _ (or_introl Hm1) He1).
  assert (Hfull : secondsLeft (t0 + workTime s * 60 * 1000) t0 = workTime s * 60).
  { unfold secondsLeft.
    replace (t0 + workTime s * 60 * 1000 - t0) with (workTime s * 60 * 1000) by ring.
    rewrite Z.div_mul by lia. lia. }
  pose proof (secondsLeft_antitone (t0 + workTime s * 60 * 1000) now1 now2 H2).
  pose proof (secondsLeft_antitone (t0 + workTime s * 60 * 1000) t0 now1 H1).
  rewrite Hfull in *. repeat split; lia.
Qed.

Lemma countdown_never_rises_witness :
  let s1 := step (StartWork 1000) init in
  currentTime (tick 1000 s1) = 30 * 60
  /\ currentTime (tick 900000 s1) <= currentTime (tick 5000 s1).
Proof.
  intros s1.
  destruct (countdown_never_rises init 1000 5000 900000 eq_refl ltac:(simpl; lia)
              ltac:(lia) ltac:(lia)) as (Hfull & _ & Hle & _).
  split; [exact Hfull|exact Hle].
Defined.

Lemma step_keeps_vibration_off (ev : Event) (s : State) :
  ev <> EnableVibration -> vibrationEnabled s = false ->
  vibrationEnabled (step ev s) = false /\ vibrations (step ev s) = vibrations s.
Proof.
  intros Hev Hv. unfold step.
  assert (Hr : forall t, vibrationEnabled (resetEffect t) = vibrationEnabled t
                         /\ vibrations (resetEffect t) = vibrations t)
    by (intros t; unfold resetEffect; now destruct (mode t)).
  assert (Hh : vibrationEnabled (handle ev s) = false
               /\ vibrations (handle ev s) = vibrations s).
  { destruct ev; simpl; try (split; [exact Hv|reflexivity]).
    - unfold startWork. destruct (mode s); simpl; auto.
    - unfold startBreak. destruct (mode s); simpl; auto.
    - unfold tick. destruct (mode s), (endTime s) as [e|]; simpl; auto;
        destruct (secondsLeft e now =? 0); simpl; auto.
    - unfold handleSaveSettings. destruct clickedMode; simpl; auto.
    - contradiction. }
  destruct Hh as [Hh1 Hh2].
  assert (Hme : vibrationEnabled (modeEffect (handle ev s)) = false
                /\ vibrations (modeEffect (handle ev s)) = vibrations s).
  { unfold modeEffect.
    destruct (mode (handle ev s)) eqn:Hm; simpl; rewrite ?Hh1; simpl; rewrite ?Hm;
      destruct (Mode_eqb (prevModeRef (handle ev s)) break); simpl; auto. }
  destruct (modeEffectDue ev s (handle ev s));
    destruct (resetEffectDue s (handle ev s));
    rewrite ?(proj1 (Hr _)), ?(proj2 (Hr _)); auto.
Qed.

(** X6.  The vibration pattern is never played unless Enable Vibration was
    clicked: over every run without that click, starting with vibration
    off, [navigator.vibrate] is not called and vibration stays off. *)
Theorem no_vibration_unless_enabled (evs : list Event) (s : State) :
  vibrationEnabled s = false -> ~ In EnableVibration evs ->
  vibrationEnabled (run evs s) = false /\ vibrations (run evs s) = vibrations s.
Proof.
  revert s. induction evs as [|ev evs IH]; intros s Hv Hin; simpl.
  - auto.
  - destruct (step_keeps_vibration_off ev s) as [H1 H2]; auto.
    { intros ->. apply Hin. now left. }
    destruct (IH (step ev s) H1) as [H3 H4].
    { intros H. apply Hin. now right. }
    split; [exact H3|congruence].
Qed.

Lemma no_vibration_unless_enabled_witness :
  vibrations (run [StartWork 0; Tick 1800000; StartBreak 1800000; Tick 2100000] init) = 0%nat.
Proof.
  apply (no_vibration_unless_enabled
           [StartWork 0; Tick 1800000; StartBreak 1800000; Tick 2100000] init eq_refl).
  simpl. intros [H|[H|[H|[H|[]]]]]; discriminate H.
Defined.

(** X7.  One whole cycle from any idle state whose ref is in step (every
    reachable idle state): Start at [t0], a tick with less than a second
    of work left, Start Pause at [t1], a tick with less than a second of
    break left.  The timer is back in [idle] showing the full work
    duration, [recordPomodoro] was called once, the confetti twice (work
    done, cycle done), the vibration once if it was enabled, and the
    durations are untouched; the deadline of the break stays stored. *)
Theorem full_cycle (s : State) (t0 n1 t1 n2 : Z) :
  mode s = idle -> prevModeRef s = idle ->
  t0 + workTime s * 60 * 1000 - n1 < 1000 ->
  t1 + breakTime s * 60 * 1000 - n2 < 1000 ->
  run [StartWork t0; Tick n1; StartBreak t1; Tick n2] s
  = mkState (workTime s) (breakTime s) (workTime s * 60) idle
            (Some (t1 + breakTime s * 60 * 1000))
            (vibrationEnabled s) idle
            (confetti s + 2)
            (vibrations s + if vibrationEnabled s then 1 else 0)
            (recorded s + 1).
Proof.
  intros Hm Hp H1 H2.
  destruct s as [wt bt ct m e v pm c vb r]. simpl in *. subst m pm.
  apply secondsLeft_zero_iff in H1. apply secondsLeft_zero_iff in H2.
  assert (S1 : step (StartWork t0) (mkState wt bt ct idle e v idle c vb r)
               = mkState wt bt ct work (Some (t0 + wt * 60 * 1000)) v work c vb r).
  { unfold step, modeEffectDue, resetEffectDue. cbn -[Z.mul Z.add Z.eqb Bool.eqb].
    rewrite ?Bool.eqb_reflx, ?Z.eqb_refl. cbn. destruct v; reflexivity. }
  assert (S2 : step (Tick n1) (mkState wt bt ct work (Some (t0 + wt * 60 * 1000)) v work c vb r)
               = mkState wt bt 0 finishedWork (Some (t0 + wt * 60 * 1000)) v finishedWork
                         (S c) (if v then S vb else vb) r).
  { unfold step, modeEffectDue, resetEffectDue.
    cbn -[secondsLeft Z.mul Z.add Z.eqb Bool.eqb]. rewrite H1.
    cbn -[secondsLeft Z.mul Z.add Bool.eqb]. rewrite ?Bool.eqb_reflx, ?Z.eqb_refl.
    cbn. destruct v; reflexivity. }
  assert (S3 : forall c' vb',
             step (StartBreak t1)
                  (mkState wt bt 0 finishedWork (Some (t0 + wt * 60 * 1000)) v finishedWork c' vb' r)
             = mkState wt bt 0 break (Some (t1 + bt * 60 * 1000)) v break c' vb' r).
  { intros c' vb'. unfold step, modeEffectDue, resetEffectDue.
    cbn -[Z.mul Z.add Z.eqb Bool.eqb].
    rewrite ?Bool.eqb_reflx, ?Z.eqb_refl. cbn. destruct v; reflexivity. }
  assert (S4 : forall c' vb',
             step (Tick n2) (mkState wt bt 0 break (Some (t1 + bt * 60 * 1000)) v break c' vb' r)
             = mkState wt bt (wt * 60) idle (Some (t1 + bt * 60 * 1000)) v idle (S c') vb' (S r)).
  { intros c' vb'. unfold step, modeEffectDue, resetEffectDue.
    cbn -[secondsLeft Z.mul Z.add Z.eqb Bool.eqb]. rewrite H2.
    cbn -[secondsLeft Z.mul Z.add Bool.eqb]. rewrite ?Bool.eqb_reflx, ?Z.eqb_refl.
    cbn. destruct v; reflexivity. }
  unfold run. cbn [fold_left]. rewrite S1, S2, S3, S4.
  f_equal; destruct v; lia.
Qed.

Lemma full_cycle_witness :
  run [StartWork 0; Tick 1800000; StartBreak 1800000; Tick 2100000] init
  = mkState 30 5 (30 * 60) idle (Some 2100000) false idle 2 0 1.
Proof.
  rewrite (full_cycle init 0 1800000 1800000 2100000 eq_refl eq_refl);
    [reflexivity | simpl; lia | simpl; lia].
Defined.

End CycleFacts.

(** * The display *)

Module DisplayFacts.

Import String Ascii Display.
Local Open Scope Z_scope.

(** A number below 100, converted and padded, is its two decimal digits. *)
Lemma padStart_two_digits (k : nat) :
  (k < 100)%nat ->
  padStart 2 "0"%char (toString (Z.of_nat k))
  = String (ascii_of_nat (48 + k / 10))
           (String (ascii_of_nat (48 + k mod 10)) EmptyString).
Proof.
  intros Hk.
  do 100 (destruct k as [|k]; [reflexivity|]).
  lia.
Qed.

Lemma ascii_of_nat_injective (n1 n2 : nat) :
  (n1 < 256)%nat -> (n2 < 256)%nat -> ascii_of_nat n1 = ascii_of_nat n2 -> n1 = n2.
Proof.
  intros H1 H2 H. apply (f_equal nat_of_ascii) in H.
  now rewrite !nat_ascii_embedding in H.
Qed.

Lemma formatTime_digits (seconds : Z) :
  0 <= seconds < 6000 ->
  exists m s : nat,
    (m < 100)%nat /\ (s < 60)%nat /\ seconds = 60 * Z.of_nat m + Z.of_nat s
    /\ formatTime seconds
       = String (ascii_of_nat (48 + m / 10))
           (String (ascii_of_nat (48 + m mod 10))
              (String ":"%char
                 (String (ascii_of_nat (48 + s / 10))
                    (String (ascii_of_nat (48 + s mod 10)) EmptyString)))).
Proof.
  intros H.
  pose proof (Z.mod_pos_bound seconds 60 ltac:(lia)) as Hs.
  assert (Hm : 0 <= seconds / 60 < 100).
  { split; [apply Z.div_pos; lia|apply Z.div_lt_upper_bound; lia]. }
  exists (Z.to_nat (seconds / 60)), (Z.to_nat (seconds mod 60)).
  split; [lia|]. split; [lia|]. split.
  - rewrite !Z2Nat.id by lia. apply Z.div_mod. lia.
  - unfold formatTime. rewrite Z.rem_mod_nonneg by lia.
    rewrite <- (Z2Nat.id (seconds / 60)) at 1 by lia.
    rewrite <- (Z2Nat.id (seconds mod 60)) at 1 by lia.
    rewrite !padStart_two_digits by lia.
    reflexivity.
Qed.

(** X8.  For a time of 0 to 5999 seconds (under 100 minutes) [formatTime]
    gives exactly five characters with the colon in the middle, and two
    different times never give the same text. *)
Theorem formatTime_mm_ss (a b : Z) :
  0 <= a < 6000 -> 0 <= b < 6000 ->
  String.length (formatTime a) = 5%nat
  /\ String.get 2 (formatTime a) = Some ":"%char
  /\ (formatTime a = formatTime b -> a = b).
Proof.
  intros Ha Hb.
  destruct (formatTime_digits a Ha) as (ma & sa & Bma & Bsa & Ea & Fa).
  destruct (formatTime_digits b Hb) as (mb & sb & Bmb & Bsb & Eb & Fb).
  rewrite Fa, Fb.
  split; [reflexivity|]. split; [reflexivity|].
  assert (Dma : (ma / 10 < 10)%nat) by (apply Nat.Div0.div_lt_upper_bound; lia).
  assert (Dmb : (mb / 10 < 10)%nat) by (apply Nat.Div0.div_lt_upper_bound; lia).
  assert (Dsa : (sa / 10 < 10)%nat) by (apply Nat.Div0.div_lt_upper_bound; lia).
  assert (Dsb : (sb / 10 < 10)%nat) by (apply Nat.Div0.div_lt_upper_bound; lia).
  assert (Rma : (ma mod 10 < 10)%nat) by (apply Nat.mod_upper_bound; lia).
  assert (Rmb : (mb mod 10 < 10)%nat) by (apply Nat.mod_upper_bound; lia).
  assert (Rsa : (sa mod 10 < 10)%nat) by (apply Nat.mod_upper_bound; lia).
  assert (Rsb : (sb mod 10 < 10)%nat) by (apply Nat.mod_upper_bound; lia).
  pose proof (Nat.div_mod_eq ma 10) as Qma. pose proof (Nat.div_mod_eq mb 10) as Qmb.
  pose proof (Nat.div_mod_eq sa 10) as Qsa. pose proof (Nat.div_mod_eq sb 10) as Qsb.
  revert Dma Dmb Dsa Dsb Rma Rmb Rsa Rsb Qma Qmb Qsa Qsb.
  generalize (ma / 10)%nat (ma mod 10)%nat (mb / 10)%nat (mb mod 10)%nat
             (sa / 10)%nat (sa mod 10)%nat (sb / 10)%nat (sb mod 10)%nat.
  intros qa ra qb rb ua va ub vb Dma Dmb Dsa Dsb Rma Rmb Rsa Rsb Qma Qmb Qsa Qsb H.
  assert (H1 : ascii_of_nat (48 + qa) = ascii_of_nat (48 + qb)) by congruence.
  assert (H2 : ascii_of_nat (48 + ra) = ascii_of_nat (48 + rb)) by congruence.
  assert (H3 : ascii_of_nat (48 + ua) = ascii_of_nat (48 + ub)) by congruence.
  assert (H4 : ascii_of_nat (48 + va) = ascii_of_nat (48 + vb)) by congruence.
  apply ascii_of_nat_injective in H1; [|lia|lia].
  apply ascii_of_nat_injective in H2; [|lia|lia].
  apply ascii_of_nat_injective in H3; [|lia|lia].
  apply ascii_of_nat_injective in H4; [|lia|lia].
  lia.
Qed.

Lemma formatTime_mm_ss_witness :
  formatTime 1800 = "30:00"%string /\ formatTime 59 = "00:59"%string
  /\ String.length (formatTime 1800) = 5%nat
  /\ (formatTime 1800 = formatTime 59 -> 1800 = 59).
Proof.
  split; [reflexivity|]. split; [reflexivity|].
  destruct (formatTime_mm_ss 1800 59 ltac:(lia) ltac:(lia)) as (Hl & _ & Hi).
  split; [exact Hl|exact Hi].
Defined.

End DisplayFacts.

(** * More on the oranges *)

Module SwarmFacts.

Import Physics PhysicsFacts.
Local Open Scope R_scope.

(** ** Arrays updated in place *)

Lemma fold_left_invariant {A B : Type} (P : A -> Prop) (g : A -> B -> A)
    (l : list B) (a0 : A) :
  (forall a b, In b l -> P a -> P (g a b)) -> P a0 -> P (fold_left g l a0).
Proof.
  revert a0. induction l as [|b l IH]; intros a0 Hstep H0; simpl.
  - exact H0.
  - apply IH.
    + intros a b' Hin. apply Hstep. now right.
    + apply Hstep; [now left|exact H0].
Qed.


Lemma map_id_setAt (i : nat) (v : Orange) (arr : list Orange) :
  nth_error (map id arr) i = Some (id v) -> map id (setAt i v arr) = map id arr.
Proof.
  revert i. induction arr as [|hd tl IH]; intros [|i] H; simpl in *; try discriminate.
  - now injection H as ->.
  - now rewrite IH.
Qed.

(** ** What a frame keeps *)

Lemma collide_ids (size : R) (a b : Orange) :
  id (fst (collide size a b)) = id a /\ id (snd (collide size a b)) = id b.
Proof.
  unfold collide.
  destruct (Rlt_dec _ _); [destruct (Rgt_dec _ _); [destruct (Rlt_dec _ _)|]|];
    simpl; split; reflexivity.
Qed.

Lemma collideAt_ids (size : R) (i j : nat) (arr : list Orange) :
  map id (collideAt size i j arr) = map id arr.
Proof.
  unfold collideAt.
  destruct (nth_error arr i) as [a|] eqn:Hi; [|reflexivity].
  destruct (nth_error arr j) as [b|] eqn:Hj; [|reflexivity].
  destruct (collide_ids size a b) as [Ha Hb].
  destruct (collide size a b) as [a' b']. simpl in Ha, Hb.
  assert (E : map id (setAt i a' arr) = map id arr).
  { apply map_id_setAt. rewrite Ha. now apply map_nth_error. }
  rewrite map_id_setAt; [exact E|].
  rewrite E, Hb. now apply map_nth_error.
Qed.

Lemma collisionPass_ids (size : R) (arr : list Orange) :
  map id (collisionPass size arr) = map id arr.
Proof.
  unfold collisionPass.
  apply (fold_left_invariant (fun acc => map id acc = map id arr)); [|reflexivity].
  intros acc i _ Hacc.
  apply (fold_left_invariant (fun acc' => map id acc' = map id arr)); [|exact Hacc].
  intros acc' j _ Hacc'. now rewrite collideAt_ids.
Qed.

Lemma moveOrange_id (accel : Accel) (dt w h size : R) (o : Orange) :
  id (moveOrange accel dt w h size o) = id o.
Proof.
  unfold moveOrange.
  destruct (Rlt_dec _ 0); [|destruct (Rgt_dec _ w)];
    (destruct (Rlt_dec _ 0); [|destruct (Rgt_dec _ h)]); reflexivity.
Qed.

Lemma hitButton_id (size : R) (buttonRect : Rect) (o : Orange) :
  id (hitButton size buttonRect o) = id o.
Proof.
  unfold hitButton. destruct (Rlt_dec _ _); [|reflexivity].
  now destruct (buttonNormal size buttonRect o).
Qed.

(** X9.  A frame neither adds, removes nor reorders oranges: the array
    after [update] carries the same ids in the same order, so it has the
    same length, whatever the time step, the container, the button and
    the collisions. *)
Theorem update_keeps_ids (accel : Accel) (dt w h : R) (button : option Rect)
    (prevOranges : list Orange) :
  map id (update accel dt w h button prevOranges) = map id prevOranges
  /\ length (update accel dt w h button prevOranges) = length prevOranges.
Proof.
  assert (E : map id (update accel dt w h button prevOranges) = map id prevOranges).
  { unfold update, movePass.
    assert (Hm : map id (collisionPass orangeSize
                           (map (moveOrange accel dt w h orangeSize) prevOranges))
                 = map id prevOranges).
    { rewrite collisionPass_ids, map_map. apply map_ext. intros o. apply moveOrange_id. }
    destruct button as [buttonRect|]; [|exact Hm].
    rewrite map_map. rewrite <- Hm, (map_ext _ id (hitButton_id orangeSize buttonRect)).
    reflexivity. }
  split; [exact E|].
  rewrite <- (length_map id), E. apply length_map.
Qed.

(** ** Pass 1 on one orange *)




(** ** Frames without contact *)






(** ** Population *)

(** X17.  After the population effect the array has exactly [count]
    oranges, whatever it held before; running the effect again with the
    same count changes nothing and draws no new positions; and the oranges
    that were there and fit under the count are kept as they were. *)
Theorem population_equals_count (count : nat) (now now' : nat -> Z) (w h w' h' : R)
    (random random' : nat -> R) (oranges : list Orange) :
  let adjusted := adjustPopulation count now w h random oranges in
  length adjusted = count
  /\ adjustPopulation count now' w' h' random' adjusted = adjusted
  /\ firstn (Nat.min count (length oranges)) adjusted
     = firstn (Nat.min count (length oranges)) oranges.
Proof.
  intros adjusted.
  assert (Hlen : length adjusted = count).
  { subst adjusted. unfold adjustPopulation.
    destruct (Nat.ltb_spec (length oranges) count) as [Hlt|Hge].
    - rewrite length_app, newOranges_length. lia.
    - destruct (Nat.ltb_spec count (length oranges)) as [Hlt|Hge'].
      + rewrite length_firstn. lia.
      + lia. }
  split; [exact Hlen|]. split.
  - unfold adjustPopulation at 1. rewrite Hlen, Nat.ltb_irrefl. reflexivity.
  - subst adjusted. unfold adjustPopulation.
    destruct (Nat.ltb_spec (length oranges) count) as [Hlt|Hge].
    + rewrite Nat.min_r by lia. rewrite firstn_app, Nat.sub_diag. simpl.
      now rewrite app_nil_r.
    + destruct (Nat.ltb_spec count (length oranges)) as [Hlt|Hge'].
      * rewrite Nat.min_l by lia. rewrite firstn_firstn. f_equal. lia.
      * reflexivity.
Qed.

(** X18.  The orange pushed in iteration [i] of the population effect gets
    the id [Date.now() + i] with the clock read in that iteration; when the
    clock does not step back during the loop, the ids of one run are all
    different. *)
Theorem newOranges_ids_distinct (now : nat -> Z) (w h : R) (random : nat -> R)
    (k : nat) :
  map id (newOranges now w h random k)
    = map (fun i => (now i + Z.of_nat i)%Z) (seq 0 k)
  /\ ((forall i j, (i <= j)%nat -> (now i <= now j)%Z) ->
      NoDup (map id (newOranges now w h random k))).
Proof.
  assert (E : map id (newOranges now w h random k)
              = map (fun i => (now i + Z.of_nat i)%Z) (seq 0 k)).
  { unfold newOranges. rewrite map_map. reflexivity. }
  split; [exact E|]. intros Hmono. rewrite E.
  apply NoDup_map_NoDup_ForallPairs; [|apply seq_NoDup].
  intros i j _ _ Hij.
  destruct (Nat.le_ge_cases i j) as [Hle|Hle].
  - pose proof (Hmono i j Hle). lia.
  - pose proof (Hmono j i Hle). lia.
Qed.

Lemma newOranges_ids_distinct_witness :
  NoDup (map id (newOranges (fun i => (100 + Z.of_nat i)%Z) 400 300 (fun _ => 1 / 2) 3)).
Proof.
  apply (proj2 (newOranges_ids_distinct (fun i => (100 + Z.of_nat i)%Z) 400 300
                  (fun _ => 1 / 2) 3)).
  intros i j Hij. lia.
Defined.

(** With a clock that steps back by one between two iterations the two
    ids are equal. *)
Lemma newOranges_ids_can_repeat :
  map id (newOranges (fun i => (101 - Z.of_nat i)%Z) 400 300 (fun _ => 1 / 2) 2)
  = [101%Z; 101%Z].
Proof. reflexivity. Qed.

End SwarmFacts.

(** * The acceleration source *)

Module MotionFacts.

Import Physics PhysicsFacts.
Local Open Scope R_scope.

Lemma waiting_step (ev : MotionEvent) (m : Motion) :
  ev <> PermissionAnswer true -> waiting m -> waiting (motionStep ev m).
Proof.
  intros Hev (Hn & Hg & Hl & Ha). destruct ev as [gamma beta|[|]]; simpl.
  - unfold deliverSample. rewrite Hl. repeat split; assumption.
  - contradiction.
  - rewrite Hn. simpl. repeat split; assumption.
Qed.

Lemma live_step (ev : MotionEvent) (m : Motion) : live m -> live (motionStep ev m).
Proof.
  intros (Hl & Hn). destruct ev as [gamma beta|granted]; simpl.
  - unfold deliverSample. rewrite Hl. simpl. split; assumption.
  - rewrite Hn. split; assumption.
Qed.

Lemma waiting_run (evs : list MotionEvent) (m : Motion) :
  ~ In (PermissionAnswer true) evs -> waiting m -> waiting (motionRun evs m).
Proof.
  revert m. induction evs as [|ev evs IH]; intros m Hin H; simpl; [exact H|].
  apply IH.
  - intros H'. apply Hin. now right.
  - apply waiting_step; [|exact H]. intros ->. apply Hin. now left.
Qed.

Lemma waiting_at_mount (d : Device) :
  hasDeviceOrientationEvent d = true -> hasRequestPermission d = true ->
  waiting (motionMount d motionInit).
Proof.
  intros Hd Hp. unfold motionMount. rewrite Hd, Hp. simpl. repeat split; reflexivity.
Qed.

Lemma live_run (evs : list MotionEvent) (m : Motion) : live m -> live (motionRun evs m).
Proof.
  revert m. induction evs as [|ev evs IH]; intros m H; simpl; [exact H|].
  apply IH. now apply live_step.
Qed.

(** X19.  On a device with a consent gate, as long as the prompt has not
    been answered with "granted" (never asked, or denied any number of
    times), orientation samples do not reach the component and the physics
    runs with the default acceleration [(0, 500)]. *)
Theorem consent_gate_holds_default (d : Device) (evs : list MotionEvent) :
  hasDeviceOrientationEvent d = true -> hasRequestPermission d = true ->
  ~ In (PermissionAnswer true) evs ->
  let m := motionRun evs (motionMount d motionInit) in
  selectAccel d m = defaultAccel /\ accelRef m = mkAccel 0 0 /\ listening m = false.
Proof.
  intros Hd Hp Hin m.
  assert (Hw : waiting m)
    by (subst m; apply waiting_run; [exact Hin|now apply waiting_at_mount]).
  destruct Hw as (Hn & Hg & Hl & Ha).
  split; [|split; assumption].
  apply selectAccel_without_consent; assumption.
Qed.

Lemma consent_gate_holds_default_witness :
  selectAccel (mkDevice true true)
    (motionRun [Sample (Some 10) (Some 20); PermissionAnswer false; Sample (Some 5) None]
               (motionMount (mkDevice true true) motionInit))
  = defaultAccel.
Proof.
  apply (consent_gate_holds_default (mkDevice true true)
           [Sample (Some 10) (Some 20); PermissionAnswer false; Sample (Some 5) None]
           eq_refl eq_refl).
  simpl. intros [H|[H|[H|[]]]]; discriminate H.
Defined.

(** X20.  Once the component is subscribed (at mount without a consent
    gate, or from the granted answer on), the acceleration used by the
    physics is the last sample's angles times [3 * 1.5], a missing angle
    counting as 0, whatever happened before that sample. *)
Theorem accel_follows_last_sample (d : Device) (evs1 evs2 : list MotionEvent)
    (gamma beta : option R) :
  hasDeviceOrientationEvent d = true ->
  let expected := mkAccel (orZero gamma * 3 * velocityBoost) (orZero beta * 3 * velocityBoost) in
  (hasRequestPermission d = false ->
     selectAccel d (motionRun (evs1 ++ [Sample gamma beta]) (motionMount d motionInit))
     = expected)
  /\ (hasRequestPermission d = true -> ~ In (PermissionAnswer true) evs1 ->
      selectAccel d
        (motionRun (evs1 ++ PermissionAnswer true :: evs2 ++ [Sample gamma beta])
                   (motionMount d motionInit))
      = expected).
Proof.
  intros Hd expected.
  assert (Hlast : forall m, live m ->
            selectAccel d (motionStep (Sample gamma beta) m) = expected).
  { intros m (Hl & Hn). simpl. unfold deliverSample. rewrite Hl.
    unfold selectAccel. simpl. rewrite Hn, Hd. reflexivity. }
  assert (Hrun : forall evs m, motionRun (evs ++ [Sample gamma beta]) m
                               = motionStep (Sample gamma beta) (motionRun evs m)).
  { intros evs m. unfold motionRun. now rewrite fold_left_app. }
  split.
  - intros Hp. rewrite Hrun. apply Hlast, live_run.
    unfold motionMount. rewrite Hd, Hp. simpl. split; reflexivity.
  - intros Hp Hin.
    destruct (waiting_run evs1 _ Hin (waiting_at_mount d Hd Hp)) as (Hn & _).
    replace (evs1 ++ PermissionAnswer true :: evs2 ++ [Sample gamma beta])
      with ((evs1 ++ PermissionAnswer true :: evs2) ++ [Sample gamma beta])
      by (now rewrite <- app_assoc).
    rewrite Hrun. apply Hlast.
    unfold motionRun. rewrite fold_left_app. simpl. apply live_run.
    fold (motionRun evs1 (motionMount d motionInit)). rewrite Hn. simpl.
    split; reflexivity.
Qed.

Lemma accel_follows_last_sample_witness :
  selectAccel (mkDevice true false)
    (motionRun ([Sample (Some 1) (Some 2)] ++ [Sample (Some 10) None])
               (motionMount (mkDevice true false) motionInit))
  = mkAccel (10 * 3 * velocityBoost) (0 * 3 * velocityBoost)
  /\ selectAccel (mkDevice true true)
       (motionRun ([PermissionAnswer false] ++ PermissionAnswer true
                     :: [Sample None None] ++ [Sample (Some 10) None])
                  (motionMount (mkDevice true true) motionInit))
     = mkAccel (10 * 3 * velocityBoost) (0 * 3 * velocityBoost).
Proof.
  split.
  - apply (proj1 (accel_follows_last_sample (mkDevice true false)
                    [Sample (Some 1) (Some 2)] [] (Some 10) None eq_refl)).
    reflexivity.
  - apply (proj2 (accel_follows_last_sample (mkDevice true true)
                    [PermissionAnswer false] [Sample None None] (Some 10) None eq_refl)).
    + reflexivity.
    + simpl. intros [H|[]]. discriminate H.
Defined.

End MotionFacts.

(** * Rewards over whole runs *)

Module RewardFacts.

Import Timer TimerFacts CycleFacts.

Lemma recorded_once_per_break_end_witness :
  let evs := [StartWork 0; Tick 1800000; EnableVibration; StartBreak 1800000;
              Tick 1900000; Tick 2100000; Tick 2100001] in
  crossings break idle evs init = 1%nat /\ recorded (run evs init) = 1%nat.
Proof.
  intros evs. split; [reflexivity|].
  rewrite (recorded_once_per_break_end evs init eq_refl). reflexivity.
Defined.

Lemma confetti_once_per_completion_witness :
  let evs := [StartWork 0; Tick 900000; Tick 1800000; SaveSettings idle 30; StartBreak 1800000;
              Tick 2100000; Tick 2100001] in
  confetti (run evs init) = 2%nat.
Proof.
  intros evs.
  rewrite (confetti_once_per_completion evs init eq_refl eq_refl). reflexivity.
Defined.

End RewardFacts.
